(** * claude-local-proxy: the OpenAI provider (src/openai.ts)

    A shallow embedding of the translator between the Claude wire protocol
    and the OpenAI chat-completion protocol: the tool-call reconciler
    ([cleanIncompleteToolCalls]), the request mapper ([convertMessages]),
    the non-streaming response mapper ([convertNormalResponse]), the
    per-frame stream callback of [convertStreamResponse] and the response
    dispatcher ([convertToClaudeResponse]).

    JavaScript exceptions are values of [result]; platform functions
    ([JSON.parse], [JSON.stringify], the body decoders) and the helpers of
    utils.ts are parameters of the development. *)

From Stdlib Require Import ZArith String Ascii List Bool Lia.
From stdpp Require Import base decidable option list gmap strings pretty.

Set Warnings "-register-all,-clear-no-such-hyp".

Local Open Scope string_scope.
Local Open Scope list_scope.

(** ** JSON values ([any] in the source) *)

(** [JNumber m e] is the decimal [m * 10^e]. *)
Inductive JSON : Type :=
| JNull
| JBool (b : bool)
| JNumber (mantissa exponent : Z)
| JString (s : string)
| JArray (elements : list JSON)
| JObject (members : list (string * JSON)).

(** The literal [{}]. *)
Definition emptyObject : JSON := JObject [].

(** ** Exceptions *)

Inductive Exn : Type :=
| SyntaxError (input : string).

Inductive result (A : Type) : Type :=
| Ok (a : A)
| Throw (e : Exn).
Arguments Ok {A} a.
Arguments Throw {A} e.

#[global] Instance result_ret : MRet result := fun A a => Ok a.
#[global] Instance result_bind : MBind result := fun A B f m =>
  match m with
  | Ok a => f a
  | Throw e => Throw e
  end.

(** [try { body } catch (e) { handler }] *)
Definition try_catch {A} (body : result A) (handler : Exn -> result A) : result A :=
  match body with
  | Ok a => Ok a
  | Throw e => handler e
  end.

(** ** Strings as JavaScript uses them *)

Definition newline : string := String (ascii_of_nat 10) EmptyString.

(** [hay.includes(needle)] *)
Fixpoint includes (hay needle : string) : bool :=
  String.prefix needle hay ||
  match hay with
  | EmptyString => false
  | String _ rest => includes rest needle
  end.

(** [parts.join(sep)] *)
Definition join (sep : string) (parts : list string) : string :=
  String.concat sep parts.

(** The double-quote character. *)
Definition dquote : ascii := ascii_of_nat 34.

(** [s.replace(/'/g, dquote)]: every single quote becomes a double quote. *)
Fixpoint replaceSingleQuotes (s : string) : string :=
  match s with
  | EmptyString => EmptyString
  | String c rest =>
      String (if Ascii.eqb c "'"%char then dquote else c)
             (replaceSingleQuotes rest)
  end.

(** A string in a boolean position: only the empty string is falsy. *)
Definition truthy (s : string) : bool := negb (String.eqb s EmptyString).

(** ** A JSON reader for the grammar of RFC 8259

    Used to run the translator on literal payloads.  Strings may carry the
    two-character escapes; a [\u] escape is rejected. *)

Module Reader.

Definition is_ws (c : ascii) : bool :=
  match nat_of_ascii c with
  | 32 | 9 | 10 | 13 => true
  | _ => false
  end.

Fixpoint skip_ws (s : string) : string :=
  match s with
  | String c rest => if is_ws c then skip_ws rest else s
  | EmptyString => s
  end.

Definition digit_of (c : ascii) : option Z :=
  let n := nat_of_ascii c in
  if (48 <=? n)%nat && (n <=? 57)%nat then Some (Z.of_nat (n - 48)) else None.

(** Reads a (possibly empty) run of digits: accumulated value, number of
    digits read, rest of the input. *)
Fixpoint digits (s : string) (acc : Z) (count : nat) : Z * nat * string :=
  match s with
  | String c rest =>
      match digit_of c with
      | Some d => digits rest (acc * 10 + d) (S count)
      | None => (acc, count, s)
      end
  | EmptyString => (acc, count, s)
  end.

Definition unescape (c : ascii) : option ascii :=
  match nat_of_ascii c with
  | 34 => Some dquote
  | 92 => Some "\"%char
  | 47 => Some "/"%char
  | 98 => Some (ascii_of_nat 8)
  | 102 => Some (ascii_of_nat 12)
  | 110 => Some (ascii_of_nat 10)
  | 114 => Some (ascii_of_nat 13)
  | 116 => Some (ascii_of_nat 9)
  | _ => None
  end.

(** The characters after an opening double quote, up to the closing one. *)
Fixpoint string_body (s : string) : option (string * string) :=
  match s with
  | EmptyString => None
  | String c rest =>
      if Ascii.eqb c dquote then Some (EmptyString, rest)
      else if Ascii.eqb c "\"%char then
        match rest with
        | String e rest' =>
            match unescape e, string_body rest' with
            | Some c', Some (body, after) => Some (String c' body, after)
            | _, _ => None
            end
        | EmptyString => None
        end
      else if (nat_of_ascii c <? 32)%nat then None
      else
        match string_body rest with
        | Some (body, after) => Some (String c body, after)
        | None => None
        end
  end.

(** [int frac? exp?] after an optional minus sign. *)
Definition number (s : string) : option (JSON * string) :=
  let '(negative, s1) :=
    match s with
    | String "-"%char rest => (true, rest)
    | _ => (false, s)
    end in
  let int_part :=
    match s1 with
    | String "0"%char rest => Some (0%Z, rest)
    | _ => match digits s1 0%Z 0 with
           | (_, O, _) => None
           | (v, _, rest) => Some (v, rest)
           end
    end in
  match int_part with
  | None => None
  | Some (i, s2) =>
      let frac_part :=
        match s2 with
        | String "."%char rest =>
            match digits rest i 0 with
            | (_, O, _) => None
            | (v, n, rest') => Some (v, (- Z.of_nat n)%Z, rest')
            end
        | _ => Some (i, 0%Z, s2)
        end in
      match frac_part with
      | None => None
      | Some (m, e, s3) =>
          let signed := if negative then (- m)%Z else m in
          let exponent (rest : string) :=
            let '(neg_e, rest1) :=
              match rest with
              | String "-"%char r => (true, r)
              | String "+"%char r => (false, r)
              | _ => (false, rest)
              end in
            match digits rest1 0%Z 0 with
            | (_, O, _) => None
            | (v, _, rest2) =>
                Some (JNumber signed (e + (if neg_e then - v else v))%Z, rest2)
            end in
          match s3 with
          | String "e"%char rest => exponent rest
          | String "E"%char rest => exponent rest
          | _ => Some (JNumber signed e, s3)
          end
      end
  end.

(** [literal word v s]: the keyword [word] at the head of [s]. *)
Definition literal (word : string) (v : JSON) (s : string) : option (JSON * string) :=
  if String.prefix word s
  then Some (v, String.substring (String.length word)
                                 (String.length s - String.length word) s)
  else None.

Fixpoint value (fuel : nat) (s : string) : option (JSON * string) :=
  match fuel with
  | O => None
  | S fuel' =>
      match skip_ws s with
      | String "{"%char rest =>
          match skip_ws rest with
          | String "}"%char after => Some (JObject [], after)
          | _ =>
              match members fuel' rest with
              | Some (ms, after) => Some (JObject ms, after)
              | None => None
              end
          end
      | String "["%char rest =>
          match skip_ws rest with
          | String "]"%char after => Some (JArray [], after)
          | _ =>
              match elements fuel' rest with
              | Some (vs, after) => Some (JArray vs, after)
              | None => None
              end
          end
      | String "t"%char _ as s' => literal "true" (JBool true) s'
      | String "f"%char _ as s' => literal "false" (JBool false) s'
      | String "n"%char _ as s' => literal "null" JNull s'
      | String c rest as s' =>
          if Ascii.eqb c dquote then
            match string_body rest with
            | Some (str, after) => Some (JString str, after)
            | None => None
            end
          else number s'
      | EmptyString => None
      end
  end
with elements (fuel : nat) (s : string) : option (list JSON * string) :=
  match fuel with
  | O => None
  | S fuel' =>
      match value fuel' s with
      | Some (v, after) =>
          match skip_ws after with
          | String ","%char rest =>
              match elements fuel' rest with
              | Some (vs, after') => Some (v :: vs, after')
              | None => None
              end
          | String "]"%char rest => Some ([v], rest)
          | _ => None
          end
      | None => None
      end
  end
with members (fuel : nat) (s : string) : option (list (string * JSON) * string) :=
  match fuel with
  | O => None
  | S fuel' =>
      match skip_ws s with
      | String c rest =>
          if negb (Ascii.eqb c dquote) then None else
          match string_body rest with
          | Some (key, after) =>
              match skip_ws after with
              | String ":"%char rest' =>
                  match value fuel' rest' with
                  | Some (v, after') =>
                      match skip_ws after' with
                      | String ","%char rest'' =>
                          match members fuel' rest'' with
                          | Some (ms, after'') => Some ((key, v) :: ms, after'')
                          | None => None
                          end
                      | String "}"%char rest'' => Some ([(key, v)], rest'')
                      | _ => None
                      end
                  | None => None
                  end
              | _ => None
              end
          | None => None
          end
      | EmptyString => None
      end
  end.

(** [JSON.parse(text)]: one value, surrounded by optional white space. *)
Definition parse (text : string) : result JSON :=
  match value (S (String.length text)) text with
  | Some (v, after) =>
      match skip_ws after with
      | EmptyString => Ok v
      | _ => Throw (SyntaxError text)
      end
  | None => Throw (SyntaxError text)
  end.

End Reader.



(** ** The Claude wire protocol (types.ts, as openai.ts reads it) *)

(** [content] of a tool result: a string, or a value that is stringified. *)
Inductive ToolResultContent : Type :=
| TextContent (s : string)
| StructuredContent (v : JSON).

(** [is_error] is read with [=== true]: absent and [false] are alike. *)
Inductive ClaudeContent : Type :=
| Text (text : string)
| ToolUse (id name : string) (input : JSON)
| ToolResult (tool_use_id : string) (content : ToolResultContent)
             (is_error : option bool).

Inductive MessageContent : Type :=
| Plain (text : string)
| Blocks (blocks : list ClaudeContent).

Module ClaudeMessage.
Record t : Type := mk { role : string; content : MessageContent }.
End ClaudeMessage.

Inductive StopReason : Type := end_turn | max_tokens | tool_use.

Module ClaudeUsage.
Record t : Type := mk { input_tokens : Z; output_tokens : Z }.
End ClaudeUsage.

(** [stop_reason] and [usage] are assigned after construction, so they may
    be absent from the serialized object. *)
Module ClaudeResponse.
Record t : Type := mk {
  id : string;
  type : string;
  role : string;
  content : list ClaudeContent;
  stop_reason : option StopReason;
  usage : option ClaudeUsage.t
}.
End ClaudeResponse.

(** ** The OpenAI wire protocol *)

Module OpenAIFunction.
Record t : Type := mk { name : string; arguments : string }.
End OpenAIFunction.

Module OpenAIToolCall.
Record t : Type := mk { id : string; type : string; function : OpenAIFunction.t }.
End OpenAIToolCall.

Module OpenAIMessage.
Record t : Type := mk {
  role : string;
  content : option string;
  tool_calls : option (list OpenAIToolCall.t);
  tool_call_id : option string
}.
End OpenAIMessage.

Module OpenAIChoice.
Record t : Type := mk {
  message : OpenAIMessage.t;
  finish_reason : option string
}.
End OpenAIChoice.

Module OpenAIUsage.
Record t : Type := mk { prompt_tokens : Z; completion_tokens : Z }.
End OpenAIUsage.

Module OpenAIResponse.
Record t : Type := mk {
  choices : option (list OpenAIChoice.t);
  usage : option OpenAIUsage.t
}.
End OpenAIResponse.

(** Streaming fragments: every field of a delta is optional. *)
Module OpenAIStreamFunction.
Record t : Type := mk { name : option string; arguments : option string }.
End OpenAIStreamFunction.

Module OpenAIStreamToolCall.
Record t : Type := mk { function : option OpenAIStreamFunction.t }.
End OpenAIStreamToolCall.

Module OpenAIStreamDelta.
Record t : Type := mk {
  content : option string;
  tool_calls : option (list OpenAIStreamToolCall.t)
}.
End OpenAIStreamDelta.

Module OpenAIStreamChoice.
Record t : Type := mk { delta : OpenAIStreamDelta.t }.
End OpenAIStreamChoice.

Module OpenAIStreamResponse.
Record t : Type := mk { choices : option (list OpenAIStreamChoice.t) }.
End OpenAIStreamResponse.

(** ** HTTP responses *)

Module Response.
Record t : Type := mk {
  status : Z;
  headers : list (string * string);
  body : string
}.

(** [response.ok]: the status is in the range 200-299. *)
Definition ok (r : t) : bool := (200 <=? status r)%Z && (status r <=? 299)%Z.

(** [headers.get(name)], header names already in lower case. *)
Fixpoint get (name : string) (hs : list (string * string)) : option string :=
  match hs with
  | [] => None
  | (k, v) :: rest => if String.eqb k name then Some v else get name rest
  end.
End Response.

(** ** The tool-call reconciler (openai.ts, cleanIncompleteToolCalls) *)

(** The first loop: the [tool_use_id] of every [tool_result] block. *)
Definition collectToolResultIds (messages : list ClaudeMessage.t) : gset string :=
  foldl (fun toolResultIds message =>
           match ClaudeMessage.content message with
           | Plain _ => toolResultIds
           | Blocks blocks =>
               foldl (fun ids content =>
                        match content with
                        | ToolResult tool_use_id _ _ => ids ∪ {[ tool_use_id ]}
                        | _ => ids
                        end) toolResultIds blocks
           end) ∅ messages.

Definition isToolUse (content : ClaudeContent) : bool :=
  match content with
  | ToolUse _ _ _ => true
  | _ => false
  end.

(** The inner [filter] callback: a [tool_use] whose id has no result. *)
Definition isIncompleteToolUse (toolResultIds : gset string)
    (content : ClaudeContent) : bool :=
  match content with
  | ToolUse id _ _ => negb (bool_decide (id ∈ toolResultIds))
  | _ => false
  end.

(** The outer [filter] callback. *)
Definition keepMessage (toolResultIds : gset string)
    (message : ClaudeMessage.t) : bool :=
  match ClaudeMessage.content message with
  | Plain _ => true
  | Blocks blocks =>
      let hasToolUse := existsb isToolUse blocks in
      if negb hasToolUse then true
      else
        let incompleteToolUses :=
          List.filter (isIncompleteToolUse toolResultIds) blocks in
        if (0 <? length incompleteToolUses)%nat then false else true
  end.

Definition cleanIncompleteToolCalls (messages : list ClaudeMessage.t)
    : list ClaudeMessage.t :=
  let toolResultIds := collectToolResultIds messages in
  List.filter (keepMessage toolResultIds) messages.

(** ** The request mapper (openai.ts, convertMessages) *)

(** [is_error === true] *)
Definition isError (is_error : option bool) : bool :=
  match is_error with
  | Some true => true
  | _ => false
  end.

(** The first pass of convertMessages: ids of the results that are not errors. *)
Definition collectSuccessfulToolResultIds (claudeMessages : list ClaudeMessage.t)
    : gset string :=
  foldl (fun successful message =>
           match ClaudeMessage.content message with
           | Plain _ => successful
           | Blocks blocks =>
               foldl (fun ids content =>
                        match content with
                        | ToolResult tool_use_id _ is_error =>
                            if negb (isError is_error)
                            then ids ∪ {[ tool_use_id ]}
                            else ids
                        | _ => ids
                        end) successful blocks
           end) ∅ claudeMessages.

(** [message.role === 'assistant' ? 'assistant' : 'user'] *)
Definition providerRole (message : ClaudeMessage.t) : string :=
  if String.eqb (ClaudeMessage.role message) "assistant"
  then "assistant" else "user".

Definition interruptedFeedback : string :=
  "[User provided feedback: The previous action was interrupted. Please pay attention to the new user input and adjust your approach accordingly.]".

(** The three arrays filled while one message is read, and the map
    [toolCallMap], which the source writes and never reads. *)
Record BlockAcc : Type := mkBlockAcc {
  textContents : list string;
  toolCalls : list OpenAIToolCall.t;
  toolResults : list (string * string);
  accToolCallMap : gmap string string
}.

Record MapperState : Type := mkMapperState {
  openaiMessages : list OpenAIMessage.t;
  toolCallMap : gmap string string
}.

Section RequestMapper.

(** [JSON.stringify] on a JSON value. *)
Variable JSON_stringify : JSON -> string.

(** [typeof c === 'string' ? c : JSON.stringify(c)] *)
Definition stringifyContent (c : ToolResultContent) : string :=
  match c with
  | TextContent s => s
  | StructuredContent v => JSON_stringify v
  end.

Variable successfulToolResultIds : gset string.

(** One turn of the [switch] over a content block. *)
Definition convertContent (acc : BlockAcc) (content : ClaudeContent) : BlockAcc :=
  match content with
  | Text text =>
      mkBlockAcc (textContents acc ++ [text]) (toolCalls acc)
                 (toolResults acc) (accToolCallMap acc)
  | ToolUse id name input =>
      let map' := <[ id := id ]> (accToolCallMap acc) in
      if bool_decide (id ∈ successfulToolResultIds) then
        mkBlockAcc (textContents acc)
          (toolCalls acc ++
             [OpenAIToolCall.mk id "function"
                (OpenAIFunction.mk name (JSON_stringify input))])
          (toolResults acc) map'
      else
        mkBlockAcc
          (textContents acc ++
             ["[User interrupted: " +:+ name +:+
              " operation was cancelled by user]"])
          (toolCalls acc) (toolResults acc) map'
  | ToolResult tool_use_id c is_error =>
      if negb (isError is_error) then
        mkBlockAcc (textContents acc) (toolCalls acc)
          (toolResults acc ++ [(tool_use_id, stringifyContent c)])
          (accToolCallMap acc)
      else
        let errorContent := stringifyContent c in
        if includes errorContent "Interrupted by user" then
          mkBlockAcc (textContents acc ++ [interruptedFeedback])
            (toolCalls acc) (toolResults acc) (accToolCallMap acc)
        else
          mkBlockAcc
            (textContents acc ++
               ["[Tool execution error: " +:+ errorContent +:+ "]"])
            (toolCalls acc) (toolResults acc) (accToolCallMap acc)
  end.

Definition toolMessage (toolResult : string * string) : OpenAIMessage.t :=
  OpenAIMessage.mk "tool" (Some (snd toolResult)) None (Some (fst toolResult)).

(** The body of the loop over the cleaned messages. *)
Definition convertMessage (st : MapperState) (message : ClaudeMessage.t)
    : MapperState :=
  match ClaudeMessage.content message with
  | Plain text =>
      mkMapperState
        (openaiMessages st ++
           [OpenAIMessage.mk (providerRole message) (Some text) None None])
        (toolCallMap st)
  | Blocks blocks =>
      let acc :=
        foldl convertContent (mkBlockAcc [] [] [] (toolCallMap st)) blocks in
      let hasText := (0 <? length (textContents acc))%nat in
      let hasCalls := (0 <? length (toolCalls acc))%nat in
      let pushed :=
        if hasText || hasCalls then
          openaiMessages st ++
            [OpenAIMessage.mk (providerRole message)
               (if hasText then Some (join newline (textContents acc)) else None)
               (if hasCalls then Some (toolCalls acc) else None)
               None]
        else openaiMessages st in
      mkMapperState
        (foldl (fun ms toolResult => ms ++ [toolMessage toolResult])
               pushed (toolResults acc))
        (accToolCallMap acc)
  end.

End RequestMapper.

Section ConvertMessages.

Variable JSON_stringify : JSON -> string.

Definition convertMessages (claudeMessages : list ClaudeMessage.t)
    : list OpenAIMessage.t :=
  let cleanedMessages := cleanIncompleteToolCalls claudeMessages in
  let successfulToolResultIds := collectSuccessfulToolResultIds claudeMessages in
  openaiMessages
    (foldl (convertMessage JSON_stringify successfulToolResultIds)
           (mkMapperState [] ∅) cleanedMessages).

End ConvertMessages.

(** ** The non-streaming response mapper (openai.ts, convertNormalResponse) *)

(** A [for] loop whose body may throw. *)
Fixpoint foldlM {A B : Type} (f : A -> B -> result A) (a : A) (l : list B)
    : result A :=
  match l with
  | [] => Ok a
  | b :: rest => a' ← f a b; foldlM f a' rest
  end.

Section NormalResponse.

(** [JSON.parse] on the arguments of a tool call. *)
Variable JSON_parse : string -> result JSON.

(** The nested [try]/[catch] that decodes the arguments of one tool call:
    [arguments || '{}'] is parsed as it is, then with every single quote
    replaced, and both handlers fall back to the empty object. *)
Definition parseToolArguments (arguments : string) : result JSON :=
  try_catch
    (let argsString := if truthy arguments then arguments else "{}" in
     try_catch (JSON_parse argsString)
       (fun e1 =>
          let argsString := replaceSingleQuotes argsString in
          try_catch (JSON_parse argsString)
            (fun e2 => Ok emptyObject)))
    (fun e => Ok emptyObject).

(** The body of the loop over [message.tool_calls]. *)
Definition pushToolUse (content : list ClaudeContent)
    (toolCall : OpenAIToolCall.t) : result (list ClaudeContent) :=
  input ← parseToolArguments
            (OpenAIFunction.arguments (OpenAIToolCall.function toolCall));
  Ok (content ++
        [ToolUse (OpenAIToolCall.id toolCall)
                 (OpenAIFunction.name (OpenAIToolCall.function toolCall))
                 input]).

(** Lines 253-318: the Claude response built from the decoded body.
    [generatedId] is the value of [utils.generateId()]. *)
Definition buildClaudeResponse (generatedId : string)
    (openaiData : OpenAIResponse.t) : result ClaudeResponse.t :=
  filled ←
    match OpenAIResponse.choices openaiData with
    | Some (choice :: _) =>
        let message := OpenAIChoice.message choice in
        let content :=
          match OpenAIMessage.content message with
          | Some text => if truthy text then [Text text] else []
          | None => []
          end in
        match OpenAIMessage.tool_calls message with
        | Some tool_calls =>
            content' ← foldlM pushToolUse content tool_calls;
            Ok (content', Some tool_use)
        | None =>
            match OpenAIChoice.finish_reason choice with
            | Some reason =>
                if String.eqb reason "length"
                then Ok (content, Some max_tokens)
                else Ok (content, Some end_turn)
            | None => Ok (content, Some end_turn)
            end
        end
    | _ => Ok ([], None)
    end;
  let usage :=
    match OpenAIResponse.usage openaiData with
    | Some u =>
        Some (ClaudeUsage.mk (OpenAIUsage.prompt_tokens u)
                             (OpenAIUsage.completion_tokens u))
    | None => None
    end in
  Ok (ClaudeResponse.mk generatedId "message" "assistant"
        (fst filled) (snd filled) usage).

(** [(await openaiResponse.json()) as types.OpenAIResponse] *)
Variable response_json : string -> result OpenAIResponse.t.

(** [JSON.stringify(claudeResponse)] *)
Variable stringifyClaudeResponse : ClaudeResponse.t -> string.

Definition convertNormalResponse (generatedId : string)
    (openaiResponse : Response.t) : result Response.t :=
  openaiData ← response_json (Response.body openaiResponse);
  claudeResponse ← buildClaudeResponse generatedId openaiData;
  Ok (Response.mk (Response.status openaiResponse)
        [("content-type", "application/json")]
        (stringifyClaudeResponse claudeResponse)).

End NormalResponse.

(** ** The stream translator (openai.ts, convertStreamResponse) *)

(** What the callback hands back for one frame. *)
Record StreamResult (Event : Type) : Type := mkStreamResult {
  events : list Event;
  textBlockIndex : nat;
  toolUseBlockIndex : nat
}.
Arguments mkStreamResult {Event} events textBlockIndex toolUseBlockIndex.
Arguments events {Event} s.
Arguments textBlockIndex {Event} s.
Arguments toolUseBlockIndex {Event} s.

(** The spec's StreamCursor. *)
Record StreamCursor : Type := mkStreamCursor {
  text_block_index : nat;
  tool_block_index : nat
}.

(** What a streamed response has produced when its input ends or a frame
    makes the callback throw. *)
Record StreamOutput (Event : Type) : Type := mkStreamOutput {
  emitted : list Event;
  cursor : StreamCursor;
  failure : option Exn
}.
Arguments mkStreamOutput {Event} emitted cursor failure.
Arguments emitted {Event} s.
Arguments cursor {Event} s.
Arguments failure {Event} s.

Section StreamDriver.

Variable Event : Type.

(** Modelled from the spec: utils.processProviderStream, whose source is
    not among the files.  Section 4.4: the translator consumes frames one
    at a time, in arrival order, and for each frame may emit zero or more
    canonical output frames, threading a StreamCursor across calls; the
    end of the input ends the output.  An exception of the callback ends
    the loop, as JavaScript does when no handler is named. *)
Fixpoint processFrames
    (processLine : string -> nat -> nat -> result (option (StreamResult Event)))
    (frames : list string) (cur : StreamCursor) : StreamOutput Event :=
  match frames with
  | [] => mkStreamOutput [] cur None
  | jsonStr :: rest =>
      match processLine jsonStr (text_block_index cur) (tool_block_index cur) with
      | Throw e => mkStreamOutput [] cur (Some e)
      | Ok None => processFrames processLine rest cur
      | Ok (Some r) =>
          let out :=
            processFrames processLine rest
              (mkStreamCursor (textBlockIndex r) (toolUseBlockIndex r)) in
          mkStreamOutput (events r ++ emitted out) (cursor out) (failure out)
      end
  end.

(** Modelled from the spec: a StreamCursor is allocated fresh per call; the
    first text block and the first tool block both have index 0. *)
Definition processProviderStream (frames : list string)
    (processLine : string -> nat -> nat -> result (option (StreamResult Event)))
    : StreamOutput Event :=
  processFrames processLine frames (mkStreamCursor 0 0).

End StreamDriver.
Arguments processFrames {Event} processLine frames cur.
Arguments processProviderStream {Event} frames processLine.

Section StreamResponse.

(** [JSON.parse] on the arguments of a streamed tool call. *)
Variable JSON_parse : string -> result JSON.

(** [JSON.parse(jsonStr) as types.OpenAIStreamResponse] *)
Variable parseStreamResponse : string -> result OpenAIStreamResponse.t.

(** The encoded canonical event: a string in the source. *)
Variable Event : Type.

(** utils.processTextPart and utils.processToolUsePart (utils.ts). *)
Variable processTextPart : string -> nat -> list Event.
Variable processToolUsePart : string -> JSON -> nat -> list Event.

(** The body of the loop over [delta.tool_calls]. *)
Definition convertStreamToolCall (st : StreamResult Event)
    (toolCall : OpenAIStreamToolCall.t) : result (StreamResult Event) :=
  match OpenAIStreamToolCall.function toolCall with
  | Some fn =>
      match OpenAIStreamFunction.name fn, OpenAIStreamFunction.arguments fn with
      | Some name, Some arguments =>
          if truthy name && truthy arguments then
            args ← JSON_parse arguments;
            Ok (mkStreamResult
                  (events st ++ processToolUsePart name args (toolUseBlockIndex st))
                  (textBlockIndex st)
                  (S (toolUseBlockIndex st)))
          else Ok st
      | _, _ => Ok st
      end
  | None => Ok st
  end.

(** The [if (delta.content)] block. *)
Definition convertStreamText (st : StreamResult Event) (content : option string)
  : StreamResult Event :=
match content with
| Some text =>
    if truthy text then
      mkStreamResult
        (events st ++ processTextPart text (textBlockIndex st))
        (S (textBlockIndex st))
        (toolUseBlockIndex st)
    else st
| None => st
end.

(** The callback handed to utils.processProviderStream. *)
Definition convertStreamLine (jsonStr : string)
  (textBlockIndex0 toolUseBlockIndex0 : nat)
  : result (option (StreamResult Event)) :=
openaiData ← parseStreamResponse jsonStr;
match OpenAIStreamResponse.choices openaiData with
| None | Some [] => Ok None
| Some (choice :: _) =>
    let delta := OpenAIStreamChoice.delta choice in
    let start := mkStreamResult [] textBlockIndex0 toolUseBlockIndex0 in
    let afterText := convertStreamText start (OpenAIStreamDelta.content delta) in
    afterTools ←
      match OpenAIStreamDelta.tool_calls delta with
      | Some tool_calls => foldlM convertStreamToolCall afterText tool_calls
      | None => Ok afterText
      end;
    Ok (Some afterTools)
end.

(** The frames of a response body and the response built around the
    translated events: both belong to utils.processProviderStream. *)
Variable frames_of : Response.t -> list string.
Variable streamed : Response.t -> StreamOutput Event -> Response.t.

Definition convertStreamResponse (openaiResponse : Response.t) : Response.t :=
  streamed openaiResponse
    (processProviderStream (frames_of openaiResponse) convertStreamLine).

(** ** The dispatcher (openai.ts, convertToClaudeResponse) *)

Variable response_json : string -> result OpenAIResponse.t.
Variable stringifyClaudeResponse : ClaudeResponse.t -> string.

Definition convertToClaudeResponse (generatedId : string)
    (openaiResponse : Response.t) : result Response.t :=
  if negb (Response.ok openaiResponse) then Ok openaiResponse
  else
    let contentType :=
      match Response.get "content-type" (Response.headers openaiResponse) with
      | Some v => v
      | None => EmptyString
      end in
    let isStream := includes contentType "text/event-stream" in
    if isStream then Ok (convertStreamResponse openaiResponse)
    else convertNormalResponse JSON_parse response_json
           stringifyClaudeResponse generatedId openaiResponse.

End StreamResponse.
Arguments convertStreamToolCall JSON_parse {Event} processToolUsePart st toolCall.
Arguments convertStreamText {Event} processTextPart st content.
Arguments convertStreamLine JSON_parse parseStreamResponse {Event}
  processTextPart processToolUsePart jsonStr textBlockIndex0 toolUseBlockIndex0.
Arguments convertStreamResponse JSON_parse parseStreamResponse {Event}
  processTextPart processToolUsePart frames_of streamed openaiResponse.
Arguments convertToClaudeResponse JSON_parse parseStreamResponse {Event}
  processTextPart processToolUsePart frames_of streamed
  response_json stringifyClaudeResponse generatedId openaiResponse.

(** ** The platform, instantiated

    A serializer, the typed views of parsed bodies and a recording pair of
    event helpers: with [Reader.parse] they run the translator on literal
    payloads. *)

Module Writer.

Definition escape_char (c : ascii) : string :=
  if Ascii.eqb c dquote then String "\"%char (String dquote EmptyString)
  else if Ascii.eqb c "\"%char then "\\"
  else if Ascii.eqb c (ascii_of_nat 10) then "\n"
  else if Ascii.eqb c (ascii_of_nat 13) then "\r"
  else if Ascii.eqb c (ascii_of_nat 9) then "\t"
  else String c EmptyString.

Fixpoint escape (s : string) : string :=
  match s with
  | EmptyString => EmptyString
  | String c rest => escape_char c +:+ escape rest
  end.

Definition quoted (s : string) : string :=
  String dquote (escape s +:+ String dquote EmptyString).

(** [JSON.stringify(v)]: the compact form. *)
Fixpoint stringify (v : JSON) : string :=
  match v with
  | JNull => "null"
  | JBool true => "true"
  | JBool false => "false"
  | JNumber m e =>
      if (e =? 0)%Z then pretty m else pretty m +:+ "e" +:+ pretty e
  | JString s => quoted s
  | JArray vs => "[" +:+ join "," (map stringify vs) +:+ "]"
  | JObject ms =>
      "{" +:+
      join "," (map (fun kv => quoted (fst kv) +:+ ":" +:+ stringify (snd kv)) ms)
      +:+ "}"
  end.

Definition contentToJSON (c : ClaudeContent) : JSON :=
  match c with
  | Text text => JObject [("type", JString "text"); ("text", JString text)]
  | ToolUse id name input =>
      JObject [("type", JString "tool_use"); ("id", JString id);
               ("name", JString name); ("input", input)]
  | ToolResult tool_use_id c _ =>
      JObject [("type", JString "tool_result");
               ("tool_use_id", JString tool_use_id)]
  end.

Definition stopReasonToJSON (r : StopReason) : JSON :=
  match r with
  | end_turn => JString "end_turn"
  | max_tokens => JString "max_tokens"
  | tool_use => JString "tool_use"
  end.

(** A field that was never assigned is not serialized. *)
Definition responseToJSON (r : ClaudeResponse.t) : JSON :=
  JObject
    ([("id", JString (ClaudeResponse.id r));
      ("type", JString (ClaudeResponse.type r));
      ("role", JString (ClaudeResponse.role r));
      ("content", JArray (map contentToJSON (ClaudeResponse.content r)))]
     ++ match ClaudeResponse.stop_reason r with
        | Some reason => [("stop_reason", stopReasonToJSON reason)]
        | None => []
        end
     ++ match ClaudeResponse.usage r with
        | Some u =>
            [("usage",
              JObject [("input_tokens", JNumber (ClaudeUsage.input_tokens u) 0);
                       ("output_tokens", JNumber (ClaudeUsage.output_tokens u) 0)])]
        | None => []
        end).

Definition stringifyClaudeResponse (r : ClaudeResponse.t) : string :=
  stringify (responseToJSON r).

End Writer.

Module Decode.

(** Property read: the last member with the key wins. *)
Definition field (k : string) (v : JSON) : option JSON :=
  match v with
  | JObject ms =>
      foldl (fun found kv => if String.eqb (fst kv) k then Some (snd kv) else found)
            None ms
  | _ => None
  end.

Definition str (o : option JSON) : option string :=
  match o with
  | Some (JString s) => Some s
  | _ => None
  end.

Definition int (o : option JSON) : Z :=
  match o with
  | Some (JNumber m e) => (m * 10 ^ e)%Z
  | _ => 0%Z
  end.

Definition arr {A} (f : JSON -> A) (o : option JSON) : option (list A) :=
  match o with
  | Some (JArray vs) => Some (map f vs)
  | _ => None
  end.

Definition obj {A} (f : JSON -> A) (o : option JSON) : option A :=
  match o with
  | Some (JObject ms) => Some (f (JObject ms))
  | _ => None
  end.

Definition streamFunction (v : JSON) : OpenAIStreamFunction.t :=
  OpenAIStreamFunction.mk (str (field "name" v)) (str (field "arguments" v)).

Definition streamToolCall (v : JSON) : OpenAIStreamToolCall.t :=
  OpenAIStreamToolCall.mk (obj streamFunction (field "function" v)).

Definition streamDelta (v : JSON) : OpenAIStreamDelta.t :=
  OpenAIStreamDelta.mk (str (field "content" v))
                       (arr streamToolCall (field "tool_calls" v)).

Definition streamChoice (v : JSON) : OpenAIStreamChoice.t :=
  OpenAIStreamChoice.mk
    (streamDelta (match field "delta" v with Some d => d | None => JNull end)).

Definition streamResponse (v : JSON) : OpenAIStreamResponse.t :=
  OpenAIStreamResponse.mk (arr streamChoice (field "choices" v)).

(** [JSON.parse(jsonStr) as types.OpenAIStreamResponse] *)
Definition parseStreamResponse (jsonStr : string) : result OpenAIStreamResponse.t :=
  v ← Reader.parse jsonStr; Ok (streamResponse v).

Definition toolCall (v : JSON) : OpenAIToolCall.t :=
  let fn := match field "function" v with Some f => f | None => JNull end in
  OpenAIToolCall.mk
    (default EmptyString (str (field "id" v)))
    (default EmptyString (str (field "type" v)))
    (OpenAIFunction.mk (default EmptyString (str (field "name" fn)))
                       (default EmptyString (str (field "arguments" fn)))).

Definition message (v : JSON) : OpenAIMessage.t :=
  OpenAIMessage.mk (default EmptyString (str (field "role" v)))
                   (str (field "content" v))
                   (arr toolCall (field "tool_calls" v))
                   None.

Definition choice (v : JSON) : OpenAIChoice.t :=
  OpenAIChoice.mk
    (message (match field "message" v with Some m => m | None => JNull end))
    (str (field "finish_reason" v)).

Definition usage (v : JSON) : OpenAIUsage.t :=
  OpenAIUsage.mk (int (field "prompt_tokens" v))
                 (int (field "completion_tokens" v)).

Definition response (v : JSON) : OpenAIResponse.t :=
  OpenAIResponse.mk (arr choice (field "choices" v))
                    (obj usage (field "usage" v)).

(** [(await openaiResponse.json()) as types.OpenAIResponse] *)
Definition response_json (body : string) : result OpenAIResponse.t :=
  v ← Reader.parse body; Ok (response v).

End Decode.

(** A call of [processTextPart] or [processToolUsePart], with the block
    index it was given. *)
Inductive Part : Type :=
| TextPart (text : string) (index : nat)
| ToolUsePart (name : string) (args : JSON) (index : nat).

Definition recordTextPart (text : string) (index : nat) : list Part :=
  [TextPart text index].

Definition recordToolUsePart (name : string) (args : JSON) (index : nat)
    : list Part :=
  [ToolUsePart name args index].

Definition textIndices (parts : list Part) : list nat :=
  flat_map (fun p => match p with TextPart _ i => [i] | _ => [] end) parts.

Definition toolIndices (parts : list Part) : list nat :=
  flat_map (fun p => match p with ToolUsePart _ _ i => [i] | _ => [] end) parts.

(** The text calls of [parts] use the block indices from [ti] up to [ti'],
    each once and in order; the tool calls those from [ui] up to [ui']. *)
Definition consecutive (ti ui : nat) (parts : list Part) (ti' ui' : nat) : Prop :=
  textIndices parts = seq ti (ti' - ti) ∧ (ti <= ti')%nat ∧
  toolIndices parts = seq ui (ui' - ui) ∧ (ui <= ui')%nat.

Section Rendering.
Variable Event : Type.
Variable processTextPart : string -> nat -> list Event.
Variable processToolUsePart : string -> JSON -> nat -> list Event.

(** The events a recorded call stands for. *)
Definition renderPart (p : Part) : list Event :=
  match p with
  | TextPart text index => processTextPart text index
  | ToolUsePart name args index => processToolUsePart name args index
  end.
(** A callback result and a stream output with each recorded call replaced
  by its events. *)
Definition renderResult (r : StreamResult Part) : StreamResult Event :=
mkStreamResult (flat_map renderPart (events r))
               (textBlockIndex r) (toolUseBlockIndex r).

Definition renderOutput (out : StreamOutput Part) : StreamOutput Event :=
mkStreamOutput (flat_map renderPart (emitted out)) (cursor out) (failure out).
End Rendering.
Arguments renderPart {Event} processTextPart processToolUsePart p.
Arguments renderResult {Event} processTextPart processToolUsePart r.
Arguments renderOutput {Event} processTextPart processToolUsePart out.

#[global] Instance result_fmap : FMap result := fun A B f m =>
  match m with
  | Ok a => Ok (f a)
  | Throw e => Throw e
  end.

(** JSON text written with a backquote where the double quote stands. *)
Fixpoint json (text : string) : string :=
  match text with
  | EmptyString => EmptyString
  | String c rest =>
      String (if Ascii.eqb c "`"%char then dquote else c) (json rest)
  end.


(** ** What one block contributes to a provider message

    The three arrays of [convertContent], block by block: the statements
    below compare the loops of the source with these. *)

Section Contributions.

Variable JSON_stringify : JSON -> string.
Variable successfulToolResultIds : gset string.

Definition interruptedToolUse (name : string) : string :=
  "[User interrupted: " +:+ name +:+ " operation was cancelled by user]".

Definition toolExecutionError (errorContent : string) : string :=
  "[Tool execution error: " +:+ errorContent +:+ "]".

Definition toolCallEntry (id name : string) (input : JSON) : OpenAIToolCall.t :=
  OpenAIToolCall.mk id "function" (OpenAIFunction.mk name (JSON_stringify input)).

Definition textLinesOf (content : ClaudeContent) : list string :=
  match content with
  | Text text => [text]
  | ToolUse id name _ =>
      if bool_decide (id ∈ successfulToolResultIds) then []
      else [interruptedToolUse name]
  | ToolResult _ c is_error =>
      if isError is_error then
        if includes (stringifyContent JSON_stringify c) "Interrupted by user"
        then [interruptedFeedback]
        else [toolExecutionError (stringifyContent JSON_stringify c)]
      else []
  end.

Definition toolCallsOf (content : ClaudeContent) : list OpenAIToolCall.t :=
  match content with
  | ToolUse id name input =>
      if bool_decide (id ∈ successfulToolResultIds)
      then [toolCallEntry id name input] else []
  | _ => []
  end.

Definition toolResultsOf (content : ClaudeContent) : list (string * string) :=
  match content with
  | ToolResult tool_use_id c is_error =>
      if isError is_error then []
      else [(tool_use_id, stringifyContent JSON_stringify c)]
  | _ => []
  end.

(** [Some l] for a field that is set only when [l] is not empty. *)
Definition whenNonEmpty {A B} (l : list A) (v : B) : option B :=
  match l with
  | [] => None
  | _ :: _ => Some v
  end.

(** The provider messages one Claude message stands for. *)
Definition emittedFor (message : ClaudeMessage.t) : list OpenAIMessage.t :=
  match ClaudeMessage.content message with
  | Plain text => [OpenAIMessage.mk (providerRole message) (Some text) None None]
  | Blocks blocks =>
      let texts := flat_map textLinesOf blocks in
      let calls := flat_map toolCallsOf blocks in
      match texts, calls with
      | [], [] => []
      | _, _ =>
          [OpenAIMessage.mk (providerRole message)
             (whenNonEmpty texts (join newline texts))
             (whenNonEmpty calls calls) None]
      end
      ++ map toolMessage (flat_map toolResultsOf blocks)
  end.

End Contributions.

(** Some [tool_result] block of the conversation answers [id]. *)
Definition hasResult (id : string) (messages : list ClaudeMessage.t) : Prop :=
  ∃ m blocks c e,
    m ∈ messages ∧ ClaudeMessage.content m = Blocks blocks ∧
    ToolResult id c e ∈ blocks.

(** Some [tool_result] block that is not an error answers [id]. *)
Definition hasSuccessfulResult (id : string) (messages : list ClaudeMessage.t)
    : Prop :=
  ∃ m blocks c e,
    m ∈ messages ∧ ClaudeMessage.content m = Blocks blocks ∧
    ToolResult id c e ∈ blocks ∧ isError e = false.

(** The provider messages of role tool. *)
Definition isToolMessage (om : OpenAIMessage.t) : bool :=
  String.eqb (OpenAIMessage.role om) "tool".

(** The tool calls a provider message carries. *)
Definition toolCallsIn (om : OpenAIMessage.t) : list OpenAIToolCall.t :=
  default [] (OpenAIMessage.tool_calls om).

(** ** Decoding of tool-call arguments, in the words of the specification

    Strict parsing; on failure a second attempt with every single quote
    replaced by a double quote; on failure again the empty object. *)

Definition decodeArguments (JSON_parse : string -> result JSON)
    (arguments : string) : JSON :=
  match JSON_parse arguments with
  | Ok v => v
  | Throw _ =>
      match JSON_parse (replaceSingleQuotes arguments) with
      | Ok v => v
      | Throw _ => emptyObject
      end
  end.

(** [arguments || '{}'] *)
Definition orEmptyObject (arguments : string) : string :=
  if truthy arguments then arguments else "{}".

(** The tool-use block of one tool call. *)
Definition toolUseOf (JSON_parse : string -> result JSON)
    (toolCall : OpenAIToolCall.t) : ClaudeContent :=
  ToolUse (OpenAIToolCall.id toolCall)
          (OpenAIFunction.name (OpenAIToolCall.function toolCall))
          (decodeArguments JSON_parse
             (orEmptyObject
                (OpenAIFunction.arguments (OpenAIToolCall.function toolCall)))).

(** The stop reason, in the words of the specification: tool_use if any
    tool call was present, else max_tokens on truncation, else end_turn. *)
Definition specStopReason (choice : OpenAIChoice.t) : StopReason :=
  match OpenAIMessage.tool_calls (OpenAIChoice.message choice) with
  | Some (_ :: _) => tool_use
  | _ =>
      match OpenAIChoice.finish_reason choice with
      | Some reason => if String.eqb reason "length" then max_tokens else end_turn
      | None => end_turn
      end
  end.

(** The text block of the first choice. *)
Definition textBlockOf (message : OpenAIMessage.t) : list ClaudeContent :=
  match OpenAIMessage.content message with
  | Some text => if truthy text then [Text text] else []
  | None => []
  end.

Definition claudeUsageOf (usage : option OpenAIUsage.t) : option ClaudeUsage.t :=
  match usage with
  | Some u =>
      Some (ClaudeUsage.mk (OpenAIUsage.prompt_tokens u)
                           (OpenAIUsage.completion_tokens u))
  | None => None
  end.

(** An interrupted tool call: the assistant asks for [bash], the user stops
    it and goes on. *)
Definition interruptedConversation : list ClaudeMessage.t :=
  [ClaudeMessage.mk "assistant"
     (Blocks [Text "Running."; ToolUse "t1" "bash" emptyObject]);
   ClaudeMessage.mk "user"
     (Blocks [ToolResult "t1" (TextContent "Interrupted by user: stop")
                         (Some true);
              Text "Try again."])].

(** A tool call that failed, and one that was answered. *)
Definition failedConversation : list ClaudeMessage.t :=
  [ClaudeMessage.mk "assistant" (Blocks [ToolUse "t1" "bash" emptyObject]);
   ClaudeMessage.mk "user"
     (Blocks [ToolResult "t1" (TextContent "boom") (Some true)])].

Definition answeredConversation : list ClaudeMessage.t :=
  [ClaudeMessage.mk "assistant"
     (Blocks [ToolUse "t1" "bash" (JObject [("cmd", JString "ls")])]);
   ClaudeMessage.mk "user"
     (Blocks [ToolResult "t1" (TextContent "a.txt") None])].

(** ** The request builder (openai.ts, convertToProviderRequest and
    convertToOpenAIRequestBody) *)

Module ClaudeTool.
Record t : Type := mk {
  name : string;
  description : option string;
  input_schema : JSON
}.
End ClaudeTool.

(** A field that may be [undefined] is an option; [temperature] and
    [max_tokens] are copied as they come, so they stay JSON values. *)
Module ClaudeRequest.
Record t : Type := mk {
  model : string;
  messages : list ClaudeMessage.t;
  stream : option bool;
  tools : option (list ClaudeTool.t);
  temperature : option JSON;
  max_tokens : option JSON
}.
End ClaudeRequest.

Module OpenAIToolFunction.
Record t : Type := mk {
  name : string;
  description : option string;
  parameters : JSON
}.
End OpenAIToolFunction.

Module OpenAITool.
Record t : Type := mk { type : string; function : OpenAIToolFunction.t }.
End OpenAITool.

Module OpenAIRequest.
Record t : Type := mk {
  model : string;
  messages : list OpenAIMessage.t;
  stream : option bool;
  tools : option (list OpenAITool.t);
  temperature : option JSON;
  max_tokens : option JSON
}.
End OpenAIRequest.

(** An HTTP request; [headers] maps lower-case names to values, as the
    Headers class presents them. *)
Module Request.
Record t : Type := mk {
  url : string;
  method : string;
  headers : gmap string string;
  body : string
}.
End Request.

Section RequestBuilder.

Variable JSON_stringify : JSON -> string.

(** utils.cleanJsonSchema (utils.ts). *)
Variable cleanJsonSchema : JSON -> JSON.

(** The callback of [claudeRequest.tools.map]. *)
Definition convertTool (tool : ClaudeTool.t) : OpenAITool.t :=
  OpenAITool.mk "function"
    (OpenAIToolFunction.mk (ClaudeTool.name tool)
       (ClaudeTool.description tool)
       (cleanJsonSchema (ClaudeTool.input_schema tool))).

Definition convertToOpenAIRequestBody (claudeRequest : ClaudeRequest.t)
    : OpenAIRequest.t :=
  let openaiRequest :=
    OpenAIRequest.mk (ClaudeRequest.model claudeRequest)
      (convertMessages JSON_stringify (ClaudeRequest.messages claudeRequest))
      (ClaudeRequest.stream claudeRequest) None None None in
  let openaiRequest :=
    match ClaudeRequest.tools claudeRequest with
    | Some tools =>
        if (0 <? length tools)%nat then
          OpenAIRequest.mk (OpenAIRequest.model openaiRequest)
            (OpenAIRequest.messages openaiRequest)
            (OpenAIRequest.stream openaiRequest)
            (Some (map convertTool tools))
            (OpenAIRequest.temperature openaiRequest)
            (OpenAIRequest.max_tokens openaiRequest)
        else openaiRequest
    | None => openaiRequest
    end in
  let openaiRequest :=
    match ClaudeRequest.temperature claudeRequest with
    | Some temperature =>
        OpenAIRequest.mk (OpenAIRequest.model openaiRequest)
          (OpenAIRequest.messages openaiRequest)
          (OpenAIRequest.stream openaiRequest)
          (OpenAIRequest.tools openaiRequest)
          (Some temperature)
          (OpenAIRequest.max_tokens openaiRequest)
    | None => openaiRequest
    end in
  match ClaudeRequest.max_tokens claudeRequest with
  | Some maxTokens =>
      OpenAIRequest.mk (OpenAIRequest.model openaiRequest)
        (OpenAIRequest.messages openaiRequest)
        (OpenAIRequest.stream openaiRequest)
        (OpenAIRequest.tools openaiRequest)
        (OpenAIRequest.temperature openaiRequest)
        (Some maxTokens)
  | None => openaiRequest
  end.

(** [(await request.json()) as types.ClaudeRequest] *)
Variable request_json : string -> result ClaudeRequest.t.

(** [JSON.stringify(openaiRequest)] *)
Variable stringifyOpenAIRequest : OpenAIRequest.t -> string.

Definition convertToProviderRequest (request : Request.t)
    (baseUrl apiKey : string) : result Request.t :=
  claudeRequest ← request_json (Request.body request);
  let openaiRequest := convertToOpenAIRequestBody claudeRequest in
  let finalUrl := baseUrl in
  let headers := Request.headers request in
  let headers := <[ "authorization" := "Bearer " +:+ apiKey ]> headers in
  let headers := <[ "content-type" := "application/json" ]> headers in
  Ok (Request.mk finalUrl "POST" headers (stringifyOpenAIRequest openaiRequest)).

End RequestBuilder.

(** ** The router (index.ts, the handler of POST /:type/* up to the
    call of the provider) *)

(** [s.split(sep)] for a separator of one character. *)
Fixpoint split_on (sep : ascii) (s : string) : list string :=
  match s with
  | EmptyString => [EmptyString]
  | String c rest =>
      if Ascii.eqb c sep then EmptyString :: split_on sep rest
      else
        match split_on sep rest with
        | first :: others => String c first :: others
        | [] => [String c EmptyString]
        end
  end.

(** [url.pathname.split('/').filter(part => part !== '')] *)
Definition pathPartsOf (pathname : string) : list string :=
  List.filter truthy (split_on "/"%char pathname).

(** [parts.slice(-2)] and [parts.slice(0, -2)] *)
Definition lastTwo (parts : list string) : list string :=
  drop (length parts - 2) parts.

Definition withoutLastTwo (parts : list string) : list string :=
  take (length parts - 2) parts.

(** The removal of a trailing v1/messages. *)
Definition stripMessagesSuffix (providerUrlParts : list string) : list string :=
  let lastTwoParts := lastTwo providerUrlParts in
  match lastTwoParts !! 0, lastTwoParts !! 1 with
  | Some a, Some b =>
      if String.eqb a "v1" && String.eqb b "messages"
      then withoutLastTwo providerUrlParts
      else providerUrlParts
  | _, _ => providerUrlParts
  end.

(** The reconstruction of the provider URL. *)
Definition reconstructUrl (providerUrlParts : list string) : string :=
  match providerUrlParts with
  | first :: rest =>
      if String.eqb first "https:" || String.eqb first "http:"
      then first +:+ "//" +:+ join "/" rest
      else "https://" +:+ join "/" providerUrlParts
  | [] => "https://" +:+ join "/" providerUrlParts
  end.

Definition resolveBaseUrl (providerUrlParts : list string) : string :=
  reconstructUrl (stripMessagesSuffix providerUrlParts).

(** [s.startsWith(p)] and [s.substring(n)] *)
Definition startsWith (s p : string) : bool := String.prefix p s.

Definition substringFrom (n : nat) (s : string) : string :=
  String.substring n (String.length s - n) s.

(** An absent value and the empty string are falsy. *)
Definition truthyOption (o : option string) : bool :=
  match o with
  | Some s => truthy s
  | None => false
  end.

Section Router.

(** [type.toUpperCase()] and the provider table: [supported type] is the
    truth value of [providers[type]]. *)
Variable toUpperCase : string -> string.
Variable supported : string -> bool.

(** [process.env] *)
Variable env : gmap string string.

(** The three sources of the API key, in the order of the source. *)
Definition resolveApiKey (type : string) (headers : gmap string string)
    : option string :=
  let apiKey := headers !! "x-api-key" in
  let apiKey :=
    if negb (truthyOption apiKey) then
      match headers !! "authorization" with
      | Some authHeader =>
          if truthy authHeader && startsWith authHeader "Bearer "
          then Some (substringFrom 7 authHeader)
          else apiKey
      | None => apiKey
      end
    else apiKey in
  if negb (truthyOption apiKey) then
    let providerType := toUpperCase type in
    env !! (providerType +:+ "_API_KEY")
  else apiKey.

(** What the handler has decided when it reaches the provider. *)
Inductive Routed : Type :=
| Reject (status : Z) (error : string)
| Forward (type baseUrl apiKey : string).

(** [pathname] is [url.pathname]; [headers] maps the lower-case names of the
    request headers to their values.  A refusal carries the status and the
    [error] text of the JSON answer. *)
Definition route (pathname : string) (headers : gmap string string) : Routed :=
  let pathParts := pathPartsOf pathname in
  if (length pathParts <? 2)%nat then
    Reject 400 "Invalid path format. Expected: /{type}/{provider_url}"
  else
    let type := default EmptyString (pathParts !! 0) in
    let providerUrlParts := drop 1 pathParts in
    let baseUrl := resolveBaseUrl providerUrlParts in
    if negb (truthy type) || negb (truthy baseUrl) then
      Reject 400 "Missing type or provider_url in path"
    else if negb (supported type) then
      Reject 400 ("Provider " +:+ type +:+ " not supported")
    else
      match resolveApiKey type headers with
      | Some apiKey =>
          if truthy apiKey then Forward type baseUrl apiKey
          else Reject 401 "Missing API key. Please provide it via x-api-key header or environment variable (GEMINI_API_KEY or OPENAI_API_KEY)"
      | None =>
          Reject 401 "Missing API key. Please provide it via x-api-key header or environment variable (GEMINI_API_KEY or OPENAI_API_KEY)"
      end.

End Router.

(** [toUpperCase] on the letters a-z. *)
Definition upperAscii (c : ascii) : ascii :=
  let n := nat_of_ascii c in
  if (97 <=? n)%nat && (n <=? 122)%nat then ascii_of_nat (n - 32) else c.

Fixpoint toUpperCaseAscii (s : string) : string :=
  match s with
  | EmptyString => EmptyString
  | String c rest => String (upperAscii c) (toUpperCaseAscii rest)
  end.

(** The two providers of the table. *)
Definition knownProvider (type : string) : bool :=
  String.eqb type "gemini" || String.eqb type "openai".

(** A string without the character [sep]. *)
Fixpoint sepFree (sep : ascii) (s : string) : bool :=
  match s with
  | EmptyString => true
  | String c rest => negb (Ascii.eqb c sep) && sepFree sep rest
  end.

(** A path segment: not empty, without a slash. *)
Definition segment (s : string) : bool := truthy s && sepFree "/"%char s.

(** ** The stream callback, call by call *)

(** A tool call of a delta that carries a name and arguments, both not
    empty. *)
Definition completeCall (toolCall : OpenAIStreamToolCall.t)
    : option (string * string) :=
  match OpenAIStreamToolCall.function toolCall with
  | Some fn =>
      match OpenAIStreamFunction.name fn, OpenAIStreamFunction.arguments fn with
      | Some name, Some arguments =>
          if truthy name && truthy arguments then Some (name, arguments) else None
      | _, _ => None
      end
  | None => None
  end.

(** The arguments of the complete calls, parsed from left to right. *)
Fixpoint parseCalls (JSON_parse : string -> result JSON)
    (calls : list (string * string)) : result (list (string * JSON)) :=
  match calls with
  | [] => Ok []
  | (name, arguments) :: rest =>
      args ← JSON_parse arguments;
      parsed ← parseCalls JSON_parse rest;
      Ok ((name, args) :: parsed)
  end.

(** The recorded tool parts of parsed calls, numbered from [start]. *)
Fixpoint toolParts (start : nat) (calls : list (string * JSON)) : list Part :=
  match calls with
  | [] => []
  | (name, args) :: rest => ToolUsePart name args start :: toolParts (S start) rest
  end.

(** The recorded text part of a delta. *)
Definition textParts (content : option string) (index : nat) : list Part :=
  match content with
  | Some text => if truthy text then [TextPart text index] else []
  | None => []
  end.

(** ** The bodies of requests, decoded and serialized *)

Module RequestCodec.

Definition toolResultContent (o : option JSON) : ToolResultContent :=
  match o with
  | Some (JString s) => TextContent s
  | Some v => StructuredContent v
  | None => StructuredContent JNull
  end.

Definition isErrorField (o : option JSON) : option bool :=
  match o with
  | Some (JBool b) => Some b
  | _ => None
  end.

Definition block (v : JSON) : list ClaudeContent :=
  match Decode.str (Decode.field "type" v) with
  | Some kind =>
      if String.eqb kind "text" then
        [Text (default EmptyString (Decode.str (Decode.field "text" v)))]
      else if String.eqb kind "tool_use" then
        [ToolUse (default EmptyString (Decode.str (Decode.field "id" v)))
                 (default EmptyString (Decode.str (Decode.field "name" v)))
                 (default JNull (Decode.field "input" v))]
      else if String.eqb kind "tool_result" then
        [ToolResult (default EmptyString (Decode.str (Decode.field "tool_use_id" v)))
                    (toolResultContent (Decode.field "content" v))
                    (isErrorField (Decode.field "is_error" v))]
      else []
  | None => []
  end.

Definition message (v : JSON) : ClaudeMessage.t :=
  ClaudeMessage.mk (default EmptyString (Decode.str (Decode.field "role" v)))
    (match Decode.field "content" v with
     | Some (JString s) => Plain s
     | Some (JArray blocks) => Blocks (flat_map block blocks)
     | _ => Blocks []
     end).

Definition tool (v : JSON) : ClaudeTool.t :=
  ClaudeTool.mk (default EmptyString (Decode.str (Decode.field "name" v)))
                (Decode.str (Decode.field "description" v))
                (default JNull (Decode.field "input_schema" v)).

Definition claudeRequest (v : JSON) : ClaudeRequest.t :=
  ClaudeRequest.mk
    (default EmptyString (Decode.str (Decode.field "model" v)))
    (default [] (Decode.arr message (Decode.field "messages" v)))
    (match Decode.field "stream" v with
     | Some (JBool b) => Some b
     | _ => None
     end)
    (Decode.arr tool (Decode.field "tools" v))
    (Decode.field "temperature" v)
    (Decode.field "max_tokens" v).

(** [(await request.json()) as types.ClaudeRequest] *)
Definition request_json (body : string) : result ClaudeRequest.t :=
  v ← Reader.parse body; Ok (claudeRequest v).

Definition optionalMember {A} (key : string) (f : A -> JSON) (o : option A)
    : list (string * JSON) :=
  match o with
  | Some a => [(key, f a)]
  | None => []
  end.

Definition toolCallToJSON (tc : OpenAIToolCall.t) : JSON :=
  JObject
    [("id", JString (OpenAIToolCall.id tc));
     ("type", JString (OpenAIToolCall.type tc));
     ("function",
      JObject
        [("name", JString (OpenAIFunction.name (OpenAIToolCall.function tc)));
         ("arguments",
          JString (OpenAIFunction.arguments (OpenAIToolCall.function tc)))])].

Definition messageToJSON (om : OpenAIMessage.t) : JSON :=
  JObject
    ([("role", JString (OpenAIMessage.role om))]
     ++ optionalMember "content" JString (OpenAIMessage.content om)
     ++ optionalMember "tool_calls" (fun tcs => JArray (map toolCallToJSON tcs))
          (OpenAIMessage.tool_calls om)
     ++ optionalMember "tool_call_id" JString (OpenAIMessage.tool_call_id om)).

Definition toolToJSON (t : OpenAITool.t) : JSON :=
  JObject
    [("type", JString (OpenAITool.type t));
     ("function",
      JObject
        ([("name", JString (OpenAIToolFunction.name (OpenAITool.function t)))]
         ++ optionalMember "description" JString
              (OpenAIToolFunction.description (OpenAITool.function t))
         ++ [("parameters",
              OpenAIToolFunction.parameters (OpenAITool.function t))]))].

Definition requestToJSON (r : OpenAIRequest.t) : JSON :=
  JObject
    ([("model", JString (OpenAIRequest.model r));
      ("messages", JArray (map messageToJSON (OpenAIRequest.messages r)))]
     ++ optionalMember "stream" JBool (OpenAIRequest.stream r)
     ++ optionalMember "tools" (fun ts => JArray (map toolToJSON ts))
          (OpenAIRequest.tools r)
     ++ optionalMember "temperature" (fun v => v) (OpenAIRequest.temperature r)
     ++ optionalMember "max_tokens" (fun v => v) (OpenAIRequest.max_tokens r)).

(** [JSON.stringify(openaiRequest)] *)
Definition stringifyOpenAIRequest (r : OpenAIRequest.t) : string :=
  Writer.stringify (requestToJSON r).

End RequestCodec.

(** An environment with a key for the openai provider only. *)
Definition sampleEnv : gmap string string := {[ "OPENAI_API_KEY" := "sk-env" ]}.

(** * Properties *)

(** ** The reconciler *)

Lemma collect_blocks_spec (id : string) (blocks : list ClaudeContent)
    (acc : gset string) :
  id ∈ foldl (fun ids content =>
                match content with
                | ToolResult tool_use_id _ _ => ids ∪ {[ tool_use_id ]}
                | _ => ids
                end) acc blocks
  ↔ id ∈ acc ∨ ∃ c e, ToolResult id c e ∈ blocks.
Proof.
  revert acc. induction blocks as [|b blocks IH]; intros acc; simpl.
  - split; [auto | intros [H | (c & e & H)]; [done | inversion H]].
  - rewrite IH. split.
    + intros [H | (c & e & H)].
      * destruct b as [| |rid rc re]; try (by left).
        apply elem_of_union in H as [H | H]; [by left |].
        apply elem_of_singleton in H as ->.
        right. exists rc, re. left.
      * right. exists c, e. by right.
    + intros [H | (c & e & H)].
      * left. destruct b; try done. set_solver.
      * apply elem_of_cons in H as [<- | H].
        -- left. set_solver.
        -- right. eauto.
Qed.

Lemma collect_messages_spec (id : string) (messages : list ClaudeMessage.t)
    (acc : gset string) :
  id ∈ foldl (fun toolResultIds message =>
                match ClaudeMessage.content message with
                | Plain _ => toolResultIds
                | Blocks blocks =>
                    foldl (fun ids content =>
                             match content with
                             | ToolResult tool_use_id _ _ => ids ∪ {[ tool_use_id ]}
                             | _ => ids
                             end) toolResultIds blocks
                end) acc messages
  ↔ id ∈ acc ∨ hasResult id messages.
Proof.
  revert acc. induction messages as [|m messages IH]; intros acc; simpl.
  - split; [auto | intros [H | (m & bs & c & e & H & _)]; [done | inversion H]].
  - rewrite IH. unfold hasResult. split.
    + intros [H | (m' & bs & c & e & Hm & Hc & Hb)].
      * destruct (ClaudeMessage.content m) as [|bs] eqn:Hc; [by left |].
        apply collect_blocks_spec in H as [H | (c & e & H)]; [by left |].
        right. exists m, bs, c, e. split_and!; [left | done | done].
      * right. exists m', bs, c, e. split_and!; [by right | done | done].
    + intros [H | (m' & bs & c & e & Hm & Hc & Hb)].
      * left. destruct (ClaudeMessage.content m); [done |].
        apply collect_blocks_spec. by left.
      * apply elem_of_cons in Hm as [-> | Hm].
        -- left. rewrite Hc. apply collect_blocks_spec. right. eauto.
        -- right. exists m', bs, c, e. done.
Qed.

(** The set of the first loop holds exactly the answered ids. *)
Lemma collectToolResultIds_spec (id : string) (messages : list ClaudeMessage.t) :
  id ∈ collectToolResultIds messages ↔ hasResult id messages.
Proof.
  unfold collectToolResultIds. rewrite collect_messages_spec. set_solver.
Qed.

Lemma filter_incomplete_nil (ids : gset string) (blocks : list ClaudeContent) :
  List.filter (isIncompleteToolUse ids) blocks = [] ↔
  ∀ id name input, ToolUse id name input ∈ blocks → id ∈ ids.
Proof.
  induction blocks as [|b blocks IH]; simpl.
  - split; [intros _ ? ? ? H; inversion H | done].
  - destruct (isIncompleteToolUse ids b) eqn:Hb.
    + split; [done |]. intros H. exfalso.
      destruct b as [|id name input|]; simpl in Hb; try done.
      apply negb_true_iff, bool_decide_eq_false in Hb.
      apply Hb, (H id name input). left.
    + rewrite IH. split.
      * intros H id name input Hin.
        apply elem_of_cons in Hin as [<- | Hin]; [| by eapply H].
        simpl in Hb. by apply negb_false_iff, bool_decide_eq_true in Hb.
      * intros H id name input Hin. eapply H. by right.
Qed.

(** A message is kept exactly when each of its tool calls is answered. *)
Lemma keepMessage_spec (ids : gset string) (m : ClaudeMessage.t) :
  keepMessage ids m = true ↔
  ∀ blocks id name input,
    ClaudeMessage.content m = Blocks blocks →
    ToolUse id name input ∈ blocks → id ∈ ids.
Proof.
  unfold keepMessage. destruct (ClaudeMessage.content m) as [t|blocks].
  - split; [intros _ ? ? ? ? H; discriminate | done].
  - destruct (existsb isToolUse blocks) eqn:Hex; simpl.
    + destruct (List.filter (isIncompleteToolUse ids) blocks) as [|b l] eqn:Hf.
      * simpl. split; [| done]. intros _ bs id name input [= <-].
        by apply filter_incomplete_nil.
      * simpl. split; [done |]. intros H. exfalso.
        assert (List.filter (isIncompleteToolUse ids) blocks = []) as Hnil.
        { apply filter_incomplete_nil. intros. by eapply H. }
        congruence.
    + split; [| done]. intros _ bs id name input [= <-] Hin. exfalso.
      apply not_true_iff_false in Hex. apply Hex.
      apply existsb_exists. exists (ToolUse id name input).
      split; [by apply list_elem_of_In | done].
Qed.

Lemma elem_of_clean (m : ClaudeMessage.t) (messages : list ClaudeMessage.t) :
  m ∈ cleanIncompleteToolCalls messages ↔
  m ∈ messages ∧ keepMessage (collectToolResultIds messages) m = true.
Proof.
  unfold cleanIncompleteToolCalls.
  rewrite !list_elem_of_In. apply filter_In.
Qed.

(** ** The request mapper *)

Lemma collect_successful_blocks_spec (id : string) (blocks : list ClaudeContent)
    (acc : gset string) :
  id ∈ foldl (fun ids content =>
                match content with
                | ToolResult tool_use_id _ is_error =>
                    if negb (isError is_error)
                    then ids ∪ {[ tool_use_id ]}
                    else ids
                | _ => ids
                end) acc blocks
  ↔ id ∈ acc ∨ ∃ c e, ToolResult id c e ∈ blocks ∧ isError e = false.
Proof.
  revert acc. induction blocks as [|b blocks IH]; intros acc; simpl.
  - split; [auto | intros [H | (c & e & H & _)]; [done | inversion H]].
  - rewrite IH. split.
    + intros [H | (c & e & H & He)].
      * destruct b as [| |rid rc re]; try (by left).
        destruct (isError re) eqn:Hre; simpl in H; [by left |].
        apply elem_of_union in H as [H | H]; [by left |].
        apply elem_of_singleton in H as ->.
        right. exists rc, re. split; [left | done].
      * right. exists c, e. split; [by right | done].
    + intros [H | (c & e & H & He)].
      * left. destruct b as [| |rid rc re]; try done.
        destruct (isError re); simpl; [done | set_solver].
      * apply elem_of_cons in H as [<- | H].
        -- left. rewrite He. simpl. set_solver.
        -- right. eauto.
Qed.

(** The set of the first pass holds exactly the ids with a successful result. *)
Lemma collectSuccessfulToolResultIds_spec (id : string)
    (messages : list ClaudeMessage.t) :
  id ∈ collectSuccessfulToolResultIds messages ↔ hasSuccessfulResult id messages.
Proof.
  unfold collectSuccessfulToolResultIds.
  enough (∀ acc : gset string,
    id ∈ foldl (fun successful message =>
                  match ClaudeMessage.content message with
                  | Plain _ => successful
                  | Blocks blocks =>
                      foldl (fun ids content =>
                               match content with
                               | ToolResult tool_use_id _ is_error =>
                                   if negb (isError is_error)
                                   then ids ∪ {[ tool_use_id ]}
                                   else ids
                               | _ => ids
                               end) successful blocks
                  end) acc messages
    ↔ id ∈ acc ∨ hasSuccessfulResult id messages) as H.
  { rewrite H. set_solver. }
  induction messages as [|m messages IH]; intros acc; simpl.
  - split; [auto | intros [H | (m & bs & c & e & H & _)]; [done | inversion H]].
  - rewrite IH. unfold hasSuccessfulResult. split.
    + intros [H | (m' & bs & c & e & Hm & Hc & Hb)].
      * destruct (ClaudeMessage.content m) as [|bs] eqn:Hc; [by left |].
        apply collect_successful_blocks_spec in H as [H | (c & e & H & He)];
          [by left |].
        right. exists m, bs, c, e. split_and!; [left | done | done | done].
      * right. exists m', bs, c, e. split_and!; [by right | done | apply Hb | apply Hb].
    + intros [H | (m' & bs & c & e & Hm & Hc & Hb & He)].
      * left. destruct (ClaudeMessage.content m); [done |].
        apply collect_successful_blocks_spec. by left.
      * apply elem_of_cons in Hm as [-> | Hm].
        -- left. rewrite Hc. apply collect_successful_blocks_spec. right. eauto.
        -- right. exists m', bs, c, e. done.
Qed.

Lemma successful_has_result (id : string) (messages : list ClaudeMessage.t) :
  hasSuccessfulResult id messages → hasResult id messages.
Proof. intros (m & bs & c & e & ? & ? & ? & _). exists m, bs, c, e. done. Qed.

Section MapperLemmas.

Variable JSON_stringify : JSON -> string.
Variable successful : gset string.

Local Abbreviation step := (convertContent JSON_stringify successful).

Lemma convertContent_texts (blocks : list ClaudeContent) (acc : BlockAcc) :
  textContents (foldl step acc blocks)
  = textContents acc ++ flat_map (textLinesOf JSON_stringify successful) blocks.
Proof.
  revert acc. induction blocks as [|b blocks IH]; intros acc; simpl.
  - by rewrite app_nil_r.
  - rewrite IH. destruct b as [t|id name input|rid c e]; simpl.
    + by rewrite <- app_assoc.
    + case_bool_decide; simpl; [done | by rewrite <- app_assoc].
    + destruct (isError e); simpl; [| done].
      destruct (includes _ _); simpl; by rewrite <- app_assoc.
Qed.

Lemma convertContent_calls (blocks : list ClaudeContent) (acc : BlockAcc) :
  toolCalls (foldl step acc blocks)
  = toolCalls acc ++ flat_map (toolCallsOf JSON_stringify successful) blocks.
Proof.
  revert acc. induction blocks as [|b blocks IH]; intros acc; simpl.
  - by rewrite app_nil_r.
  - rewrite IH. destruct b as [t|id name input|rid c e]; simpl.
    + done.
    + case_bool_decide; simpl; [by rewrite <- app_assoc | done].
    + destruct (isError e); simpl; [| done].
      by destruct (includes _ _).
Qed.

Lemma convertContent_results (blocks : list ClaudeContent) (acc : BlockAcc) :
  toolResults (foldl step acc blocks)
  = toolResults acc ++ flat_map (toolResultsOf JSON_stringify) blocks.
Proof.
  revert acc. induction blocks as [|b blocks IH]; intros acc; simpl.
  - by rewrite app_nil_r.
  - rewrite IH. destruct b as [t|id name input|rid c e]; simpl.
    + done.
    + by case_bool_decide.
    + destruct (isError e); simpl; [| by rewrite <- app_assoc].
      by destruct (includes _ _).
Qed.

Lemma push_tool_messages (results : list (string * string))
    (ms : list OpenAIMessage.t) :
  foldl (fun ms toolResult => ms ++ [toolMessage toolResult]) ms results
  = ms ++ map toolMessage results.
Proof.
  revert ms. induction results as [|r results IH]; intros ms; simpl.
  - by rewrite app_nil_r.
  - rewrite IH. by rewrite <- app_assoc.
Qed.

(** One turn of the outer loop appends the messages of [emittedFor]. *)
Lemma convertMessage_emitted (st : MapperState) (m : ClaudeMessage.t) :
  openaiMessages (convertMessage JSON_stringify successful st m)
  = openaiMessages st ++ emittedFor JSON_stringify successful m.
Proof.
  unfold convertMessage, emittedFor.
  destruct (ClaudeMessage.content m) as [t|blocks]; [done |].
  simpl. rewrite push_tool_messages.
  rewrite convertContent_texts, convertContent_calls, convertContent_results.
  simpl.
  destruct (flat_map (textLinesOf JSON_stringify successful) blocks) as [|t ts];
    destruct (flat_map (toolCallsOf JSON_stringify successful) blocks) as [|c cs];
    simpl; by rewrite ?app_nil_r, <- ?app_assoc.
Qed.

Lemma convertMessage_fold (messages : list ClaudeMessage.t) (st : MapperState) :
  openaiMessages (foldl (convertMessage JSON_stringify successful) st messages)
  = openaiMessages st ++ flat_map (emittedFor JSON_stringify successful) messages.
Proof.
  revert st. induction messages as [|m messages IH]; intros st; simpl.
  - by rewrite app_nil_r.
  - rewrite IH, convertMessage_emitted. by rewrite <- app_assoc.
Qed.

End MapperLemmas.

(** The request mapper, message by message. *)
Lemma convertMessages_emitted (JSON_stringify : JSON -> string)
    (messages : list ClaudeMessage.t) :
  convertMessages JSON_stringify messages
  = flat_map (emittedFor JSON_stringify (collectSuccessfulToolResultIds messages))
             (cleanIncompleteToolCalls messages).
Proof. unfold convertMessages. by rewrite convertMessage_fold. Qed.

Lemma filter_all_kept {A} (f : A -> bool) (l : list A) :
  (∀ x, x ∈ l → f x = true) → List.filter f l = l.
Proof.
  induction l as [|a l IH]; intros H; simpl; [done |].
  rewrite (H a) by left. f_equal. apply IH. intros x Hx. apply H. by right.
Qed.

(** A second pass changes nothing when the results that answered the kept
    tool calls are themselves in kept messages. *)
Lemma clean_idempotent_when_results_survive (messages : list ClaudeMessage.t) :
  (∀ id, hasResult id messages → hasResult id (cleanIncompleteToolCalls messages)) →
  cleanIncompleteToolCalls (cleanIncompleteToolCalls messages)
  = cleanIncompleteToolCalls messages.
Proof.
  intros Hsurvive.
  unfold cleanIncompleteToolCalls at 1. apply filter_all_kept.
  intros m Hm. apply keepMessage_spec. intros blocks id name input Hc Hin.
  apply collectToolResultIds_spec, Hsurvive, collectToolResultIds_spec.
  apply elem_of_clean in Hm as [_ Hkeep].
  by eapply keepMessage_spec in Hkeep.
Qed.

Lemma toolCallsOf_successful (JSON_stringify : JSON -> string)
    (successful : gset string) (blocks : list ClaudeContent)
    (tc : OpenAIToolCall.t) :
  tc ∈ flat_map (toolCallsOf JSON_stringify successful) blocks →
  OpenAIToolCall.id tc ∈ successful ∧
  ∃ name input, ToolUse (OpenAIToolCall.id tc) name input ∈ blocks ∧
                tc = toolCallEntry JSON_stringify (OpenAIToolCall.id tc) name input.
Proof.
  rewrite list_elem_of_In, in_flat_map.
  intros (b & Hb & Htc). apply list_elem_of_In in Hb.
  destruct b as [|id name input|]; simpl in Htc; try done.
  case_bool_decide; [| done].
  destruct Htc as [<- | []]. simpl. split; [done |]. eauto.
Qed.

(** Every tool call of the provider payload has a successful result in the
    conversation. *)
Lemma payload_tool_calls_successful (JSON_stringify : JSON -> string)
    (messages : list ClaudeMessage.t) (om : OpenAIMessage.t)
    (tc : OpenAIToolCall.t) :
  om ∈ convertMessages JSON_stringify messages →
  tc ∈ toolCallsIn om →
  hasSuccessfulResult (OpenAIToolCall.id tc) messages.
Proof.
  rewrite convertMessages_emitted, list_elem_of_In, in_flat_map.
  intros (m & _ & Hom) Htc. apply list_elem_of_In in Hom.
  apply collectSuccessfulToolResultIds_spec.
  unfold emittedFor in Hom.
  destruct (ClaudeMessage.content m) as [t|blocks].
  - apply list_elem_of_singleton in Hom as ->. inversion Htc.
  - apply elem_of_app in Hom as [Hom | Hom].
    + set (texts := flat_map _ blocks) in Hom.
      set (calls := flat_map _ blocks) in Hom.
      assert (om = OpenAIMessage.mk (providerRole m)
                     (whenNonEmpty texts (join newline texts))
                     (whenNonEmpty calls calls) None) as ->.
      { destruct texts, calls; try (by inversion Hom);
          by apply list_elem_of_singleton in Hom. }
      unfold toolCallsIn in Htc. simpl in Htc.
      destruct calls as [|c cs] eqn:Hcalls; simpl in Htc; [inversion Htc |].
      subst calls. rewrite <- Hcalls in Htc.
      by apply toolCallsOf_successful in Htc as [? _].
    + apply list_elem_of_In, in_map_iff in Hom as (r & <- & _). inversion Htc.
Qed.

(** C1: the reconciler keeps no tool call that lacks a result in the input.
    (i) Every [ToolUse] block of a kept message has its id among the
    [tool_use_id] values of the [ToolResult] blocks of the whole input;
    (ii) a message with a [ToolUse] that no [ToolResult] answers is dropped
    whole, whatever other blocks it carries; (iii) every tool call of the
    provider payload has a result in the input; (iv) for the conversation
    user: hi, assistant: [ToolUse t1] the assistant message is dropped and
    the payload is the single user message, without tool calls; (v) the
    same with a text block next to the tool call. *)
Theorem C1_reconciler_no_unanswered_tool_use
    (JSON_stringify : JSON -> string) (messages : list ClaudeMessage.t) :
  (∀ m blocks id name input,
      m ∈ cleanIncompleteToolCalls messages →
      ClaudeMessage.content m = Blocks blocks →
      ToolUse id name input ∈ blocks →
      id ∈ collectToolResultIds messages ∧ hasResult id messages)
  ∧ (∀ m blocks id name input,
      ClaudeMessage.content m = Blocks blocks →
      ToolUse id name input ∈ blocks →
      ¬ hasResult id messages →
      m ∉ cleanIncompleteToolCalls messages)
  ∧ (∀ om tc,
      om ∈ convertMessages JSON_stringify messages →
      tc ∈ toolCallsIn om →
      hasResult (OpenAIToolCall.id tc) messages)
  ∧ (∀ name input,
      let conversation :=
        [ClaudeMessage.mk "user" (Plain "hi");
         ClaudeMessage.mk "assistant" (Blocks [ToolUse "t1" name input])] in
      cleanIncompleteToolCalls conversation
        = [ClaudeMessage.mk "user" (Plain "hi")]
      ∧ convertMessages JSON_stringify conversation
        = [OpenAIMessage.mk "user" (Some "hi") None None])
  ∧ (∀ name input sibling,
      let conversation :=
        [ClaudeMessage.mk "user" (Plain "hi");
         ClaudeMessage.mk "assistant"
           (Blocks [Text sibling; ToolUse "t1" name input])] in
      cleanIncompleteToolCalls conversation
        = [ClaudeMessage.mk "user" (Plain "hi")]
      ∧ convertMessages JSON_stringify conversation
        = [OpenAIMessage.mk "user" (Some "hi") None None]).
Proof.
  split_and!.
  - intros m blocks id name input Hm Hc Hin.
    apply elem_of_clean in Hm as [_ Hkeep].
    assert (id ∈ collectToolResultIds messages) as Hid
      by (by eapply keepMessage_spec in Hkeep).
    split; [done | by apply collectToolResultIds_spec].
  - intros m blocks id name input Hc Hin Hno Hm.
    apply elem_of_clean in Hm as [_ Hkeep].
    apply Hno, collectToolResultIds_spec.
    by eapply keepMessage_spec in Hkeep.
  - intros om tc Hom Htc.
    by eapply successful_has_result, payload_tool_calls_successful.
  - intros name input conversation.
    assert (cleanIncompleteToolCalls conversation
            = [ClaudeMessage.mk "user" (Plain "hi")]) as Hclean
      by (vm_compute; reflexivity).
    split; [done |].
    rewrite convertMessages_emitted, Hclean. reflexivity.
  - intros name input sibling conversation.
    assert (cleanIncompleteToolCalls conversation
            = [ClaudeMessage.mk "user" (Plain "hi")]) as Hclean
      by (vm_compute; reflexivity).
    split; [done |].
    rewrite convertMessages_emitted, Hclean. reflexivity.
Qed.

(** C2: a second pass of the reconciler can remove more.  The first message
    has a tool call t1 that nothing answers and carries the only result of
    t2; the first pass counts that result, keeps the call of t2 and drops
    the first message; the second pass finds no result for t2. *)
Theorem C2_reconcile_twice_differs :
  let m :=
    [ClaudeMessage.mk "user"
       (Blocks [ToolResult "t2" (TextContent "done") None;
                ToolUse "t1" "f" emptyObject]);
     ClaudeMessage.mk "assistant" (Blocks [ToolUse "t2" "g" emptyObject])] in
  cleanIncompleteToolCalls m
    = [ClaudeMessage.mk "assistant" (Blocks [ToolUse "t2" "g" emptyObject])]
  ∧ cleanIncompleteToolCalls (cleanIncompleteToolCalls m) = []
  ∧ cleanIncompleteToolCalls (cleanIncompleteToolCalls m)
    ≠ cleanIncompleteToolCalls m.
Proof.
  intros m.
  assert (cleanIncompleteToolCalls m
    = [ClaudeMessage.mk "assistant" (Blocks [ToolUse "t2" "g" emptyObject])])
    as H1 by (vm_compute; reflexivity).
  assert (cleanIncompleteToolCalls (cleanIncompleteToolCalls m) = []) as H2
    by (vm_compute; reflexivity).
  split_and!; [done | done |]. rewrite H2, H1. discriminate.
Qed.

(** ** Substrings *)

Lemma string_app_cons (x : ascii) (a b : string) :
  String x a +:+ b = String x (a +:+ b).
Proof. reflexivity. Qed.

Lemma string_app_nil_l (b : string) : EmptyString +:+ b = b.
Proof. reflexivity. Qed.

Lemma string_app_nil_r (a : string) : a +:+ EmptyString = a.
Proof. induction a as [|x a IH]; [done |]. by rewrite string_app_cons, IH. Qed.

Lemma string_app_assoc (a b c : string) : (a +:+ b) +:+ c = a +:+ b +:+ c.
Proof.
  induction a as [|x a IH]; [done |]. by rewrite !string_app_cons, IH.
Qed.

Lemma prefix_cons (x y : ascii) (n h : string) :
  String.prefix (String x n) (String y h)
  = if ascii_dec x y then String.prefix n h else false.
Proof. reflexivity. Qed.

Lemma prefix_app (n b : string) : String.prefix n (n +:+ b) = true.
Proof.
  induction n as [|x n IH]; [by destruct b |].
  rewrite string_app_cons, prefix_cons.
  destruct (ascii_dec x x); [done | congruence].
Qed.

Lemma prefix_inv (n h : string) :
  String.prefix n h = true → ∃ b, h = n +:+ b.
Proof.
  revert h. induction n as [|x n IH]; intros h H.
  - by exists h.
  - destruct h as [|y h]; [done |]. rewrite prefix_cons in H.
    destruct (ascii_dec x y) as [-> |]; [| done].
    destruct (IH h H) as [b ->]. exists b. by rewrite string_app_cons.
Qed.

Lemma includes_nil (needle : string) :
  includes EmptyString needle = String.prefix needle EmptyString.
Proof. unfold includes. apply orb_false_r. Qed.

Lemma includes_cons (x : ascii) (hay needle : string) :
  includes (String x hay) needle
  = String.prefix needle (String x hay) || includes hay needle.
Proof. reflexivity. Qed.

(** [includes] is the substring relation. *)
Lemma includes_spec (hay needle : string) :
  includes hay needle = true ↔ ∃ a b, hay = a +:+ needle +:+ b.
Proof.
  split.
  - induction hay as [|x hay IH]; intros H.
    + rewrite includes_nil in H. apply prefix_inv in H as [b ->].
      by exists EmptyString, b.
    + rewrite includes_cons in H. apply orb_true_iff in H as [H | H].
      * apply prefix_inv in H as [b ->]. by exists EmptyString, b.
      * destruct (IH H) as (a & b & ->). exists (String x a), b.
        by rewrite string_app_cons.
  - intros (a & b & ->). induction a as [|x a IH].
    + rewrite string_app_nil_l.
      destruct (needle +:+ b) as [|y r] eqn:E.
      * by rewrite includes_nil, <- E, prefix_app.
      * by rewrite includes_cons, <- E, prefix_app.
    + by rewrite string_app_cons, includes_cons, IH, orb_true_r.
Qed.

Lemma includes_inside (a x b needle : string) :
  includes x needle = true → includes (a +:+ x +:+ b) needle = true.
Proof.
  rewrite !includes_spec. intros (a' & b' & ->).
  exists (a +:+ a'), (b' +:+ b). by rewrite !string_app_assoc.
Qed.

(** A joined text contains each of its lines. *)
Lemma join_contains (sep : string) (before after : list string) (line : string) :
  ∃ a b, join sep (before ++ line :: after) = a +:+ line +:+ b.
Proof.
  unfold join. induction before as [|x before IH]; simpl.
  - destruct after as [|y after].
    + exists EmptyString, EmptyString. by rewrite string_app_nil_r.
    + by exists EmptyString, (sep +:+ String.concat sep (y :: after)).
  - destruct IH as (a & b & IH).
    destruct (before ++ line :: after) as [|z rest] eqn:E.
    + by destruct before.
    + rewrite IH. exists (x +:+ sep +:+ a), b. by rewrite !string_app_assoc.
Qed.

Lemma join_includes (sep : string) (before after : list string)
    (line needle : string) :
  includes line needle = true →
  includes (join sep (before ++ line :: after)) needle = true.
Proof.
  intros H. destruct (join_contains sep before after line) as (a & b & ->).
  by apply includes_inside.
Qed.

(** ** What the request mapper emits for one block *)

Section BlockMapping.

Variable JSON_stringify : JSON -> string.
Variable messages : list ClaudeMessage.t.

Local Abbreviation successful := (collectSuccessfulToolResultIds messages).
Local Abbreviation texts := (flat_map (textLinesOf JSON_stringify successful)).
Local Abbreviation calls := (flat_map (toolCallsOf JSON_stringify successful)).
Local Abbreviation results := (flat_map (toolResultsOf JSON_stringify)).

(** A kept message with blocks that yield a text line or a tool call is
    followed into the payload. *)
Lemma emitted_main (m : ClaudeMessage.t) (blocks : list ClaudeContent) :
  m ∈ cleanIncompleteToolCalls messages →
  ClaudeMessage.content m = Blocks blocks →
  texts blocks ≠ [] ∨ calls blocks ≠ [] →
  OpenAIMessage.mk (providerRole m)
    (whenNonEmpty (texts blocks) (join newline (texts blocks)))
    (whenNonEmpty (calls blocks) (calls blocks)) None
  ∈ convertMessages JSON_stringify messages.
Proof.
  intros Hm Hc Hne. rewrite convertMessages_emitted.
  apply list_elem_of_In, in_flat_map. exists m.
  split; [by apply list_elem_of_In |].
  unfold emittedFor. rewrite Hc. apply in_or_app. left.
  destruct (texts blocks) as [|t ts]; destruct (calls blocks) as [|c cs];
    try (by left).
  by destruct Hne.
Qed.

(** The messages of role tool are those of the results that are not errors,
    in the order of the kept messages. *)
Lemma tool_messages_emitted :
  List.filter isToolMessage (convertMessages JSON_stringify messages)
  = flat_map (fun m =>
                match ClaudeMessage.content m with
                | Plain _ => []
                | Blocks blocks => map toolMessage (results blocks)
                end) (cleanIncompleteToolCalls messages).
Proof.
  rewrite convertMessages_emitted.
  induction (cleanIncompleteToolCalls messages) as [|m ms IH]; [done |].
  simpl. rewrite List.filter_app, IH. f_equal.
  unfold emittedFor. destruct (ClaudeMessage.content m) as [t|blocks].
  - unfold providerRole. by destruct (String.eqb _ _).
  - rewrite List.filter_app.
    assert (∀ rs, List.filter isToolMessage (map toolMessage rs)
                  = map toolMessage rs) as Htool.
    { intros rs. apply filter_all_kept. intros om Hom.
      apply list_elem_of_In, in_map_iff in Hom as (r & <- & _). done. }
    rewrite Htool.
    destruct (texts blocks), (calls blocks); simpl; try done;
      unfold providerRole; by destruct (String.eqb _ _).
Qed.

End BlockMapping.

Lemma whenNonEmpty_Some {A B} (l : list A) (v : B) :
  l ≠ [] → whenNonEmpty l v = Some v.
Proof. by destruct l. Qed.

Lemma tool_execution_error_includes (errorContent : string) :
  includes ("[Tool execution error: " +:+ errorContent +:+ "]")
           ("Tool execution error: " +:+ errorContent) = true.
Proof.
  apply includes_spec. exists "[", "]".
  by rewrite (string_app_assoc "Tool execution error: " errorContent "]").
Qed.

Lemma interrupted_tool_use_includes (name : string) :
  includes ("[User interrupted: " +:+ name +:+ " operation was cancelled by user]")
           ("User interrupted: " +:+ name +:+ " operation was cancelled by user")
  = true.
Proof.
  apply includes_spec. exists "[", "]".
  rewrite (string_app_assoc "User interrupted: " _ "]").
  by rewrite (string_app_assoc name " operation was cancelled by user" "]").
Qed.

(** C8, for the messages that survive reconciliation: for a [ToolResult]
    block with [is_error = true] in such a message, the provider message of that
    message carries a text in which the result is folded: the interruption
    notice when the stringified content contains the marker
    [Interrupted by user], the line [Tool execution error: content]
    otherwise; the block adds nothing to the messages of role tool emitted
    for its message, and every message of role tool in the payload stems
    from a result block that is not an error. *)
Theorem C8_error_result_folded
    (JSON_stringify : JSON -> string) (messages : list ClaudeMessage.t)
    (m : ClaudeMessage.t) (before after : list ClaudeContent)
    (tool_use_id : string) (c : ToolResultContent) :
  m ∈ cleanIncompleteToolCalls messages →
  ClaudeMessage.content m
    = Blocks (before ++ ToolResult tool_use_id c (Some true) :: after) →
  let successful := collectSuccessfulToolResultIds messages in
  let texts := flat_map (textLinesOf JSON_stringify successful) in
  let calls := flat_map (toolCallsOf JSON_stringify successful) in
  let results := flat_map (toolResultsOf JSON_stringify) in
  let errorContent := stringifyContent JSON_stringify c in
  let line :=
    if includes errorContent "Interrupted by user"
    then interruptedFeedback
    else "[Tool execution error: " +:+ errorContent +:+ "]" in
  let text := join newline (texts before ++ line :: texts after) in
  let provided :=
    OpenAIMessage.mk (providerRole m) (Some text)
      (whenNonEmpty (calls before ++ calls after) (calls before ++ calls after))
      None in
  provided ∈ convertMessages JSON_stringify messages
  ∧ emittedFor JSON_stringify successful m
    = provided :: map toolMessage (results before ++ results after)
  ∧ (includes errorContent "Interrupted by user" = true →
     includes text "The previous action was interrupted" = true)
  ∧ (includes errorContent "Interrupted by user" = false →
     includes text ("Tool execution error: " +:+ errorContent) = true)
  ∧ (∀ om,
       om ∈ convertMessages JSON_stringify messages →
       OpenAIMessage.role om = "tool" →
       ∃ m' blocks id' c' e',
         m' ∈ cleanIncompleteToolCalls messages ∧
         ClaudeMessage.content m' = Blocks blocks ∧
         ToolResult id' c' e' ∈ blocks ∧ isError e' = false ∧
         om = toolMessage (id', stringifyContent JSON_stringify c')).
Proof.
  intros Hm Hc successful texts calls results errorContent line text provided.
  assert (flat_map (textLinesOf JSON_stringify successful)
            (before ++ ToolResult tool_use_id c (Some true) :: after)
          = texts before ++ line :: texts after) as Htexts.
  { rewrite flat_map_app. simpl. subst line errorContent.
    by destruct (includes _ _). }
  assert (flat_map (toolCallsOf JSON_stringify successful)
            (before ++ ToolResult tool_use_id c (Some true) :: after)
          = calls before ++ calls after) as Hcalls
    by (by rewrite flat_map_app).
  assert (flat_map (toolResultsOf JSON_stringify)
            (before ++ ToolResult tool_use_id c (Some true) :: after)
          = results before ++ results after) as Hresults
    by (by rewrite flat_map_app).
  assert (texts before ++ line :: texts after ≠ []) as Hne
    by (by destruct (texts before)).
  split_and!.
  - pose proof (emitted_main JSON_stringify messages m _ Hm Hc) as H.
    change (collectSuccessfulToolResultIds messages) with successful in H.
    rewrite Htexts, Hcalls, (whenNonEmpty_Some _ _ Hne) in H.
    apply H. by left.
  - unfold emittedFor. rewrite Hc, Htexts, Hcalls, Hresults.
    subst provided text. rewrite (whenNonEmpty_Some _ _ Hne).
    by destruct (texts before ++ line :: texts after).
  - intros Hmark. subst text. apply join_includes.
    subst line. rewrite Hmark. by vm_compute.
  - intros Hmark. subst text. apply join_includes.
    subst line. rewrite Hmark. apply tool_execution_error_includes.
  - intros om Hom Hrole.
    assert (om ∈ List.filter isToolMessage (convertMessages JSON_stringify messages))
      as Hin.
    { apply list_elem_of_In, filter_In. split; [by apply list_elem_of_In |].
      unfold isToolMessage. by rewrite Hrole. }
    rewrite tool_messages_emitted in Hin.
    apply list_elem_of_In, in_flat_map in Hin as (m' & Hm' & Hin).
    destruct (ClaudeMessage.content m') as [|blocks] eqn:Hc'; [done |].
    apply in_map_iff in Hin as ([id' s] & <- & Hr).
    apply in_flat_map in Hr as (b & Hb & Hr).
    destruct b as [| |rid rc re]; simpl in Hr; try done.
    destruct (isError re) eqn:He; [done |].
    destruct Hr as [[= <- <-] | []].
    exists m', blocks, rid, rc, re.
    split_and!; try done; by apply list_elem_of_In.
Qed.

(** C9: a [ToolUse] block of a message that survives reconciliation.  When
    its id has no successful result, no tool call of the payload has that
    id, and the line [User interrupted: name operation was cancelled by
    user] stands in the text of its message, at the place of the block;
    when its id has a successful result, the [tool_calls] of its message
    hold, at the place of the block, one entry with that id, that name and
    the stringified input. *)
Theorem C9_tool_use_mapping
    (JSON_stringify : JSON -> string) (messages : list ClaudeMessage.t)
    (m : ClaudeMessage.t) (before after : list ClaudeContent)
    (id name : string) (input : JSON) :
  m ∈ cleanIncompleteToolCalls messages →
  ClaudeMessage.content m = Blocks (before ++ ToolUse id name input :: after) →
  let successful := collectSuccessfulToolResultIds messages in
  let texts := flat_map (textLinesOf JSON_stringify successful) in
  let calls := flat_map (toolCallsOf JSON_stringify successful) in
  (id ∈ successful ↔ hasSuccessfulResult id messages)
  ∧ (id ∉ successful →
     let line :=
       "[User interrupted: " +:+ name +:+ " operation was cancelled by user]" in
     let text := join newline (texts before ++ line :: texts after) in
     (∀ om tc,
        om ∈ convertMessages JSON_stringify messages →
        tc ∈ toolCallsIn om → OpenAIToolCall.id tc ≠ id)
     ∧ OpenAIMessage.mk (providerRole m) (Some text)
         (whenNonEmpty (calls before ++ calls after) (calls before ++ calls after))
         None
       ∈ convertMessages JSON_stringify messages
     ∧ includes text
         ("User interrupted: " +:+ name +:+ " operation was cancelled by user")
       = true)
  ∧ (id ∈ successful →
     OpenAIMessage.mk (providerRole m)
       (whenNonEmpty (texts before ++ texts after)
                     (join newline (texts before ++ texts after)))
       (Some (calls before
              ++ OpenAIToolCall.mk id "function"
                   (OpenAIFunction.mk name (JSON_stringify input))
              :: calls after))
       None
     ∈ convertMessages JSON_stringify messages).
Proof.
  intros Hm Hc successful texts calls.
  pose proof (emitted_main JSON_stringify messages m _ Hm Hc) as Hmain.
  change (collectSuccessfulToolResultIds messages) with successful in Hmain.
  split_and!.
  - apply collectSuccessfulToolResultIds_spec.
  - intros Hnot line text.
    assert (flat_map (textLinesOf JSON_stringify successful)
              (before ++ ToolUse id name input :: after)
            = texts before ++ line :: texts after) as Htexts.
    { rewrite flat_map_app. simpl. by rewrite bool_decide_eq_false_2. }
    assert (flat_map (toolCallsOf JSON_stringify successful)
              (before ++ ToolUse id name input :: after)
            = calls before ++ calls after) as Hcalls.
    { rewrite flat_map_app. simpl. by rewrite bool_decide_eq_false_2. }
    assert (texts before ++ line :: texts after ≠ []) as Hne
      by (by destruct (texts before)).
    split_and!.
    + intros om tc Hom Htc Heq. apply Hnot. rewrite <- Heq.
      apply collectSuccessfulToolResultIds_spec.
      by eapply payload_tool_calls_successful.
    + rewrite Htexts, Hcalls, (whenNonEmpty_Some _ _ Hne) in Hmain.
      apply Hmain. by left.
    + subst text. apply join_includes, interrupted_tool_use_includes.
  - intros Hin.
    assert (flat_map (textLinesOf JSON_stringify successful)
              (before ++ ToolUse id name input :: after)
            = texts before ++ texts after) as Htexts.
    { rewrite flat_map_app. simpl. by rewrite bool_decide_eq_true_2. }
    assert (flat_map (toolCallsOf JSON_stringify successful)
              (before ++ ToolUse id name input :: after)
            = calls before
              ++ OpenAIToolCall.mk id "function"
                   (OpenAIFunction.mk name (JSON_stringify input))
              :: calls after) as Hcalls.
    { rewrite flat_map_app. simpl. by rewrite bool_decide_eq_true_2. }
    assert (calls before
            ++ OpenAIToolCall.mk id "function"
                 (OpenAIFunction.mk name (JSON_stringify input))
            :: calls after ≠ []) as Hne
      by (by destruct (calls before)).
    rewrite Htexts, Hcalls, (whenNonEmpty_Some _ _ Hne) in Hmain.
    apply Hmain. by right.
Qed.

(** ** The non-streaming response mapper *)

Lemma foldlM_cons {A B} (f : A -> B -> result A) (a : A) (b : B) (l : list B) :
  foldlM f a (b :: l) = f a b ≫= fun a' => foldlM f a' l.
Proof. reflexivity. Qed.

Lemma result_bind_ok {A B} (a : A) (k : A -> result B) : Ok a ≫= k = k a.
Proof. reflexivity. Qed.

Section NormalResponseLemmas.

Variable JSON_parse : string -> result JSON.

(** The nested handlers leave no exception. *)
Lemma parseToolArguments_decodes (arguments : string) :
  parseToolArguments JSON_parse arguments
  = Ok (decodeArguments JSON_parse (orEmptyObject arguments)).
Proof.
  unfold parseToolArguments, decodeArguments, orEmptyObject, try_catch.
  destruct (JSON_parse (if truthy arguments then arguments else "{}")); [done |].
  by destruct (JSON_parse (replaceSingleQuotes _)).
Qed.

Lemma pushToolUse_ok (content : list ClaudeContent) (toolCall : OpenAIToolCall.t) :
  pushToolUse JSON_parse content toolCall
  = Ok (content ++ [toolUseOf JSON_parse toolCall]).
Proof. unfold pushToolUse. by rewrite parseToolArguments_decodes. Qed.

Lemma pushToolUse_fold (tool_calls : list OpenAIToolCall.t)
    (content : list ClaudeContent) :
  foldlM (pushToolUse JSON_parse) content tool_calls
  = Ok (content ++ map (toolUseOf JSON_parse) tool_calls).
Proof.
  revert content. induction tool_calls as [|tc tcs IH]; intros content.
  - simpl. by rewrite app_nil_r.
  - rewrite foldlM_cons, pushToolUse_ok, result_bind_ok, IH.
    by rewrite <- app_assoc.
Qed.

(** The response built from a body with a first choice. *)
Lemma buildClaudeResponse_choice (generatedId : string)
    (openaiData : OpenAIResponse.t) (choice : OpenAIChoice.t)
    (rest : list OpenAIChoice.t) :
  OpenAIResponse.choices openaiData = Some (choice :: rest) →
  buildClaudeResponse JSON_parse generatedId openaiData
  = Ok (ClaudeResponse.mk generatedId "message" "assistant"
          (textBlockOf (OpenAIChoice.message choice)
           ++ map (toolUseOf JSON_parse)
                (default [] (OpenAIMessage.tool_calls (OpenAIChoice.message choice))))
          (Some (match OpenAIMessage.tool_calls (OpenAIChoice.message choice) with
                 | Some _ => tool_use
                 | None => specStopReason choice
                 end))
          (claudeUsageOf (OpenAIResponse.usage openaiData))).
Proof.
  intros Hchoices. unfold buildClaudeResponse, specStopReason. rewrite Hchoices.
  fold (textBlockOf (OpenAIChoice.message choice)).
  fold (claudeUsageOf (OpenAIResponse.usage openaiData)).
  destruct (OpenAIMessage.tool_calls (OpenAIChoice.message choice)) as [tcs|].
  - rewrite pushToolUse_fold. done.
  - rewrite app_nil_r.
    destruct (OpenAIChoice.finish_reason choice) as [reason|]; [| done].
    by destruct (String.eqb reason "length").
Qed.

(** The response built from a body without choices. *)
Lemma buildClaudeResponse_no_choice (generatedId : string)
    (openaiData : OpenAIResponse.t) :
  OpenAIResponse.choices openaiData = None ∨
  OpenAIResponse.choices openaiData = Some [] →
  buildClaudeResponse JSON_parse generatedId openaiData
  = Ok (ClaudeResponse.mk generatedId "message" "assistant" [] None
          (claudeUsageOf (OpenAIResponse.usage openaiData))).
Proof.
  intros [H | H]; unfold buildClaudeResponse; by rewrite H.
Qed.

(** No decoded body makes the mapper throw. *)
Lemma buildClaudeResponse_total (generatedId : string)
    (openaiData : OpenAIResponse.t) :
  ∃ claudeResponse,
    buildClaudeResponse JSON_parse generatedId openaiData = Ok claudeResponse.
Proof.
  destruct (OpenAIResponse.choices openaiData) as [[|choice rest]|] eqn:H.
  - eexists. apply buildClaudeResponse_no_choice. by right.
  - eexists. by eapply buildClaudeResponse_choice.
  - eexists. apply buildClaudeResponse_no_choice. by left.
Qed.

End NormalResponseLemmas.

(** C6: in the non-streaming mapper the arguments of a tool call are
    parsed strictly, then with every single quote replaced by a double
    quote, and become the empty object when both attempts fail; the mapper
    returns a response in every case.  The string that is parsed is
    [arguments || '{}']; it is the arguments themselves as soon as
    [JSON.parse] reads [{}] as the empty object and rejects the empty
    string.  With the arguments [{'a': 1}] the strict attempt fails, the
    repaired text parses, and the input of the block is the object with
    the single member a = 1. *)
Theorem C6_arguments_repair :
  (∀ (JSON_parse : string -> result JSON) generatedId openaiData choice rest
     tool_calls,
      OpenAIResponse.choices openaiData = Some (choice :: rest) →
      OpenAIMessage.tool_calls (OpenAIChoice.message choice) = Some tool_calls →
      ∃ r,
        buildClaudeResponse JSON_parse generatedId openaiData = Ok r
        ∧ ClaudeResponse.content r
          = textBlockOf (OpenAIChoice.message choice)
            ++ map (fun tc =>
                      ToolUse (OpenAIToolCall.id tc)
                        (OpenAIFunction.name (OpenAIToolCall.function tc))
                        (decodeArguments JSON_parse
                           (orEmptyObject
                              (OpenAIFunction.arguments (OpenAIToolCall.function tc)))))
                   tool_calls
        ∧ (JSON_parse "{}" = Ok emptyObject →
           (∃ e, JSON_parse EmptyString = Throw e) →
           ClaudeResponse.content r
           = textBlockOf (OpenAIChoice.message choice)
             ++ map (fun tc =>
                       ToolUse (OpenAIToolCall.id tc)
                         (OpenAIFunction.name (OpenAIToolCall.function tc))
                         (decodeArguments JSON_parse
                            (OpenAIFunction.arguments (OpenAIToolCall.function tc))))
                    tool_calls))
  ∧ Reader.parse "{'a': 1}" = Throw (SyntaxError "{'a': 1}")
  ∧ Reader.parse (replaceSingleQuotes "{'a': 1}")
    = Ok (JObject [("a", JNumber 1 0)])
  ∧ buildClaudeResponse Reader.parse "msg_1"
      (OpenAIResponse.mk
         (Some [OpenAIChoice.mk
                  (OpenAIMessage.mk "assistant" None
                     (Some [OpenAIToolCall.mk "call_1" "function"
                              (OpenAIFunction.mk "f" "{'a': 1}")])
                     None)
                  (Some "tool_calls")])
         None)
    = Ok (ClaudeResponse.mk "msg_1" "message" "assistant"
            [ToolUse "call_1" "f" (JObject [("a", JNumber 1 0)])]
            (Some tool_use) None)
  ∧ convertNormalResponse Reader.parse Decode.response_json
      Writer.stringifyClaudeResponse "msg_1"
      (Response.mk 200 [("content-type", "application/json")]
         (json "{`choices`:[{`message`:{`role`:`assistant`,`content`:null,`tool_calls`:[{`id`:`call_1`,`type`:`function`,`function`:{`name`:`f`,`arguments`:`{'a': 1}`}}]},`finish_reason`:`tool_calls`}]}"))
    = Ok (Response.mk 200 [("content-type", "application/json")]
            (json "{`id`:`msg_1`,`type`:`message`,`role`:`assistant`,`content`:[{`type`:`tool_use`,`id`:`call_1`,`name`:`f`,`input`:{`a`:1}}],`stop_reason`:`tool_use`}")).
Proof.
  split_and!; try (vm_compute; reflexivity).
  intros JSON_parse generatedId openaiData choice rest tool_calls Hchoices Hcalls.
  eexists. split; [by eapply buildClaudeResponse_choice |].
  simpl. rewrite Hcalls. simpl. split; [reflexivity |].
  intros Hobject [e Hempty]. f_equal.
  clear Hchoices Hcalls.
  induction tool_calls as [|tc tcs IH]; [done |]. simpl.
  rewrite IH. f_equal.
  unfold toolUseOf. f_equal. unfold orEmptyObject, truthy.
  destruct (String.eqb_spec
              (OpenAIFunction.arguments (OpenAIToolCall.function tc)) EmptyString)
    as [-> | _]; [| done].
  unfold decodeArguments. simpl. by rewrite Hobject, Hempty.
Qed.

(** C4: with a first choice the stop reason is tool_use as soon as the
    field [tool_calls] of the message is present, max_tokens when it is
    absent and the finish reason is length, end_turn otherwise; it is the
    stop reason of the specification unless [tool_calls] is the empty
    list.  For a message whose [tool_calls] is the empty list and whose
    finish reason is length the mapper answers tool_use with no tool-use
    block, where the specification names max_tokens. *)
Theorem C4_stop_reason_empty_tool_calls :
  (∀ (JSON_parse : string -> result JSON) generatedId openaiData choice rest,
      OpenAIResponse.choices openaiData = Some (choice :: rest) →
      ∃ r,
        buildClaudeResponse JSON_parse generatedId openaiData = Ok r
        ∧ ClaudeResponse.stop_reason r
          = Some (match OpenAIMessage.tool_calls (OpenAIChoice.message choice) with
                  | Some _ => tool_use
                  | None => specStopReason choice
                  end)
        ∧ (OpenAIMessage.tool_calls (OpenAIChoice.message choice) ≠ Some [] →
           ClaudeResponse.stop_reason r = Some (specStopReason choice)))
  ∧ (let choice :=
       OpenAIChoice.mk (OpenAIMessage.mk "assistant" (Some "partial") (Some []) None)
                       (Some "length") in
     specStopReason choice = max_tokens
     ∧ buildClaudeResponse Reader.parse "msg_1"
         (OpenAIResponse.mk (Some [choice]) None)
       = Ok (ClaudeResponse.mk "msg_1" "message" "assistant"
               [Text "partial"] (Some tool_use) None))
  ∧ convertNormalResponse Reader.parse Decode.response_json
      Writer.stringifyClaudeResponse "msg_1"
      (Response.mk 200 [("content-type", "application/json")]
         (json "{`choices`:[{`message`:{`role`:`assistant`,`content`:`partial`,`tool_calls`:[]},`finish_reason`:`length`}]}"))
    = Ok (Response.mk 200 [("content-type", "application/json")]
            (json "{`id`:`msg_1`,`type`:`message`,`role`:`assistant`,`content`:[{`type`:`text`,`text`:`partial`}],`stop_reason`:`tool_use`}"))
  ∧ buildClaudeResponse Reader.parse "msg_1"
      (OpenAIResponse.mk
         (Some [OpenAIChoice.mk (OpenAIMessage.mk "assistant" (Some "partial") None None)
                                (Some "length")])
         None)
    = Ok (ClaudeResponse.mk "msg_1" "message" "assistant"
            [Text "partial"] (Some max_tokens) None).
Proof.
  split_and!; try (vm_compute; reflexivity).
  - intros JSON_parse generatedId openaiData choice rest Hchoices.
    eexists. split; [by eapply buildClaudeResponse_choice |].
    simpl. split; [done |]. intros Hne. unfold specStopReason.
    by destruct (OpenAIMessage.tool_calls (OpenAIChoice.message choice))
      as [[|tc tcs]|].
  - simpl. split; vm_compute; reflexivity.
Qed.

(** ** The dispatcher *)

Section Dispatcher.

Variable JSON_parse : string -> result JSON.
Variable parseStreamResponse : string -> result OpenAIStreamResponse.t.
Variable Event : Type.
Variable processTextPart : string -> nat -> list Event.
Variable processToolUsePart : string -> JSON -> nat -> list Event.
Variable frames_of : Response.t -> list string.
Variable streamed : Response.t -> StreamOutput Event -> Response.t.
Variable response_json : string -> result OpenAIResponse.t.
Variable stringifyClaudeResponse : ClaudeResponse.t -> string.

Local Abbreviation dispatch :=
  (convertToClaudeResponse JSON_parse parseStreamResponse
     processTextPart processToolUsePart frames_of streamed
     response_json stringifyClaudeResponse).

(** C7: a provider response whose status is outside 200-299 is returned as
    it is, with its status, headers and body, whatever its content type
    and whether or not its body can be decoded. *)
Theorem C7_error_response_relayed (generatedId : string)
    (openaiResponse : Response.t) :
  ¬ (200 ≤ Response.status openaiResponse ≤ 299)%Z →
  dispatch generatedId openaiResponse = Ok openaiResponse.
Proof.
  intros Hstatus. unfold convertToClaudeResponse.
  assert (Response.ok openaiResponse = false) as ->; [| done].
  unfold Response.ok. apply andb_false_iff.
  destruct (Z.leb_spec 200 (Response.status openaiResponse)); [| by left].
  destruct (Z.leb_spec (Response.status openaiResponse) 299); [| by right].
  lia.
Qed.

(** C10: a successful response that is not an event stream and whose
    decoded body has no [choices], or an empty list, becomes a Claude
    response with an empty content and no stop reason; its usage is
    copied when the body has one. *)
Theorem C10_no_choices_no_stop_reason (generatedId : string)
    (openaiResponse : Response.t) (openaiData : OpenAIResponse.t) :
  (200 ≤ Response.status openaiResponse ≤ 299)%Z →
  includes (default EmptyString
              (Response.get "content-type" (Response.headers openaiResponse)))
           "text/event-stream" = false →
  response_json (Response.body openaiResponse) = Ok openaiData →
  OpenAIResponse.choices openaiData = None ∨
  OpenAIResponse.choices openaiData = Some [] →
  let claudeResponse :=
    ClaudeResponse.mk generatedId "message" "assistant" [] None
      (match OpenAIResponse.usage openaiData with
       | Some u =>
           Some (ClaudeUsage.mk (OpenAIUsage.prompt_tokens u)
                                (OpenAIUsage.completion_tokens u))
       | None => None
       end) in
  buildClaudeResponse JSON_parse generatedId openaiData = Ok claudeResponse
  ∧ ClaudeResponse.content claudeResponse = []
  ∧ ClaudeResponse.stop_reason claudeResponse = None
  ∧ dispatch generatedId openaiResponse
    = Ok (Response.mk (Response.status openaiResponse)
            [("content-type", "application/json")]
            (stringifyClaudeResponse claudeResponse)).
Proof.
  intros Hstatus Hstream Hjson Hchoices claudeResponse.
  pose proof (buildClaudeResponse_no_choice JSON_parse generatedId openaiData
                Hchoices) as Hbuild.
  split_and!; try done.
  unfold convertToClaudeResponse.
  assert (Response.ok openaiResponse = true) as ->.
  { unfold Response.ok. apply andb_true_iff. split; apply Z.leb_le; lia. }
  simpl.
  replace (match Response.get "content-type" (Response.headers openaiResponse) with
           | Some v => v
           | None => EmptyString
           end)
    with (default EmptyString
            (Response.get "content-type" (Response.headers openaiResponse)))
    by (by destruct (Response.get _ _)).
  rewrite Hstream. unfold convertNormalResponse.
  rewrite Hjson, result_bind_ok, Hbuild. done.
Qed.

End Dispatcher.

(** ** The stream translator *)

Section StreamLemmas.

Variable JSON_parse : string -> result JSON.
Variable parseStreamResponse : string -> result OpenAIStreamResponse.t.
Variable Event : Type.
Variable processTextPart : string -> nat -> list Event.
Variable processToolUsePart : string -> JSON -> nat -> list Event.

Local Abbreviation render := (renderPart processTextPart processToolUsePart).
Local Abbreviation renderR := (renderResult processTextPart processToolUsePart).
Local Abbreviation translate :=
  (convertStreamLine JSON_parse parseStreamResponse
     processTextPart processToolUsePart).
Local Abbreviation record :=
  (convertStreamLine JSON_parse parseStreamResponse
     recordTextPart recordToolUsePart).

(** The events of the translator are those of the recorded calls. *)
Lemma convertStreamToolCall_render (st : StreamResult Part)
    (toolCall : OpenAIStreamToolCall.t) :
  convertStreamToolCall JSON_parse processToolUsePart (renderR st) toolCall
  = renderR <$> convertStreamToolCall JSON_parse recordToolUsePart st toolCall.
Proof.
  unfold convertStreamToolCall.
  destruct (OpenAIStreamToolCall.function toolCall) as [fn|]; [| done].
  destruct (OpenAIStreamFunction.name fn) as [name|]; [| done].
  destruct (OpenAIStreamFunction.arguments fn) as [arguments|]; [| done].
  destruct (truthy name && truthy arguments); [| done].
  destruct (JSON_parse arguments) as [args|e]; [| done].
  simpl. unfold renderResult. simpl. f_equal. f_equal.
  rewrite flat_map_app. simpl. by rewrite app_nil_r.
Qed.

Lemma convertStreamToolCalls_render (tool_calls : list OpenAIStreamToolCall.t)
    (st : StreamResult Part) :
  foldlM (convertStreamToolCall JSON_parse processToolUsePart) (renderR st) tool_calls
  = renderR <$> foldlM (convertStreamToolCall JSON_parse recordToolUsePart) st tool_calls.
Proof.
  revert st. induction tool_calls as [|tc tcs IH]; intros st; [done |].
  rewrite !foldlM_cons, convertStreamToolCall_render.
  destruct (convertStreamToolCall JSON_parse recordToolUsePart st tc) as [st'|e];
    [| done].
  simpl. apply IH.
Qed.

Lemma convertStreamText_render (st : StreamResult Part) (content : option string) :
  convertStreamText processTextPart (renderR st) content
  = renderR (convertStreamText recordTextPart st content).
Proof.
  destruct content as [text|]; [| done]. simpl.
  destruct (truthy text); [| done].
  unfold renderResult. simpl. f_equal.
  rewrite flat_map_app. simpl. by rewrite app_nil_r.
Qed.

Lemma convertStreamLine_render (jsonStr : string) (ti ui : nat) :
  translate jsonStr ti ui
  = (fun o : option (StreamResult Part) => renderR <$> o) <$> record jsonStr ti ui.
Proof.
  unfold convertStreamLine.
  destruct (parseStreamResponse jsonStr) as [openaiData|e]; [| done].
  simpl.
  destruct (OpenAIStreamResponse.choices openaiData) as [[|choice rest]|];
    [done | | done].
  change (mkStreamResult (Event:=Event) [] ti ui)
    with (renderR (mkStreamResult [] ti ui)).
  rewrite convertStreamText_render.
  destruct (OpenAIStreamDelta.tool_calls (OpenAIStreamChoice.delta choice))
    as [tool_calls|]; [| done].
  rewrite convertStreamToolCalls_render.
  by destruct (foldlM _ _ tool_calls).
Qed.

Lemma processFrames_render (frames : list string) (cur : StreamCursor) :
  processFrames translate frames cur
  = renderOutput processTextPart processToolUsePart
      (processFrames record frames cur).
Proof.
  revert cur. induction frames as [|jsonStr rest IH]; intros cur; [done |].
  simpl. rewrite convertStreamLine_render.
  destruct (record jsonStr _ _) as [[r|]|e]; simpl; [| apply IH | done].
  rewrite IH. unfold renderOutput. simpl. by rewrite flat_map_app.
Qed.

Lemma textIndices_app (a b : list Part) :
  textIndices (a ++ b) = textIndices a ++ textIndices b.
Proof. unfold textIndices. apply flat_map_app. Qed.

Lemma toolIndices_app (a b : list Part) :
  toolIndices (a ++ b) = toolIndices a ++ toolIndices b.
Proof. unfold toolIndices. apply flat_map_app. Qed.

Lemma seq_snoc (start len : nat) : seq start len ++ [start + len] = seq start (S len).
Proof. by rewrite seq_S. Qed.

Lemma consecutive_trans (ti ui ti' ui' ti'' ui'' : nat) (a b : list Part) :
  consecutive ti ui a ti' ui' → consecutive ti' ui' b ti'' ui'' →
  consecutive ti ui (a ++ b) ti'' ui''.
Proof.
  intros (Ha1 & Ha2 & Ha3 & Ha4) (Hb1 & Hb2 & Hb3 & Hb4).
  unfold consecutive.
  rewrite textIndices_app, toolIndices_app, Ha1, Ha3, Hb1, Hb3.
  split_and!; [| lia | | lia].
  - replace (ti'' - ti) with ((ti' - ti) + (ti'' - ti')) by lia.
    rewrite seq_app. do 2 f_equal. lia.
  - replace (ui'' - ui) with ((ui' - ui) + (ui'' - ui')) by lia.
    rewrite seq_app. do 2 f_equal. lia.
Qed.

Lemma convertStreamToolCall_consecutive (ti ui : nat) (st st' : StreamResult Part)
    (toolCall : OpenAIStreamToolCall.t) :
  consecutive ti ui (events st) (textBlockIndex st) (toolUseBlockIndex st) →
  convertStreamToolCall JSON_parse recordToolUsePart st toolCall = Ok st' →
  consecutive ti ui (events st') (textBlockIndex st') (toolUseBlockIndex st').
Proof.
  intros Hst. unfold convertStreamToolCall.
  destruct (OpenAIStreamToolCall.function toolCall) as [fn|];
    [| by intros [= <-]].
  destruct (OpenAIStreamFunction.name fn) as [name|]; [| by intros [= <-]].
  destruct (OpenAIStreamFunction.arguments fn) as [arguments|];
    [| by intros [= <-]].
  destruct (truthy name && truthy arguments); [| by intros [= <-]].
  destruct (JSON_parse arguments) as [args|e]; [| done].
  simpl. intros [= <-]. simpl.
  eapply consecutive_trans; [exact Hst |].
  unfold consecutive, recordToolUsePart. simpl.
  replace (S (toolUseBlockIndex st) - toolUseBlockIndex st) with 1 by lia.
  replace (textBlockIndex st - textBlockIndex st) with 0 by lia.
  split_and!; [done | lia | done | lia].
Qed.

Lemma convertStreamToolCalls_consecutive (ti ui : nat)
    (tool_calls : list OpenAIStreamToolCall.t) (st st' : StreamResult Part) :
  consecutive ti ui (events st) (textBlockIndex st) (toolUseBlockIndex st) →
  foldlM (convertStreamToolCall JSON_parse recordToolUsePart) st tool_calls = Ok st' →
  consecutive ti ui (events st') (textBlockIndex st') (toolUseBlockIndex st').
Proof.
  revert st. induction tool_calls as [|tc tcs IH]; intros st Hst.
  - by intros [= <-].
  - rewrite foldlM_cons.
    destruct (convertStreamToolCall JSON_parse recordToolUsePart st tc)
      as [st1|e] eqn:Hstep; [| done].
    simpl. apply IH. by eapply convertStreamToolCall_consecutive.
Qed.

(** One frame: the indices used start at the cursor handed in and the
    cursor handed back is the next free pair. *)
Lemma convertStreamLine_consecutive (jsonStr : string) (ti ui : nat)
    (r : StreamResult Part) :
  record jsonStr ti ui = Ok (Some r) →
  consecutive ti ui (events r) (textBlockIndex r) (toolUseBlockIndex r).
Proof.
  unfold convertStreamLine.
  destruct (parseStreamResponse jsonStr) as [openaiData|e]; [| done].
  simpl.
  destruct (OpenAIStreamResponse.choices openaiData) as [[|choice rest]|];
    [done | | done].
  set (afterText := convertStreamText _ _ _).
  assert (consecutive ti ui (events afterText) (textBlockIndex afterText)
                      (toolUseBlockIndex afterText)) as Hafter.
  { subst afterText. unfold consecutive, convertStreamText.
    destruct (OpenAIStreamDelta.content (OpenAIStreamChoice.delta choice))
      as [text|]; [destruct (truthy text) |]; simpl;
      rewrite ?Nat.sub_diag; try (split_and!; [done | lia | done | lia]).
    replace (S ti - ti) with 1 by lia. split_and!; [done | lia | done | lia]. }
  destruct (OpenAIStreamDelta.tool_calls (OpenAIStreamChoice.delta choice))
    as [tool_calls|].
  - destruct (foldlM _ afterText tool_calls) as [st'|e] eqn:Hfold; [| done].
    simpl. intros [= <-]. by eapply convertStreamToolCalls_consecutive.
  - simpl. by intros [= <-].
Qed.

Lemma processFrames_consecutive (frames : list string) (cur : StreamCursor) :
  let out := processFrames record frames cur in
  consecutive (text_block_index cur) (tool_block_index cur) (emitted out)
              (text_block_index (cursor out)) (tool_block_index (cursor out)).
Proof.
  revert cur. induction frames as [|jsonStr rest IH]; intros cur; simpl.
  - unfold consecutive. rewrite !Nat.sub_diag. simpl. split_and!; done || lia.
  - destruct (record jsonStr _ _) as [[r|]|e] eqn:Hline; simpl.
    + eapply consecutive_trans; [by eapply convertStreamLine_consecutive |].
      apply (IH (mkStreamCursor (textBlockIndex r) (toolUseBlockIndex r))).
    + apply IH.
    + unfold consecutive. rewrite !Nat.sub_diag. simpl. split_and!; done || lia.
Qed.

(** Frames are handled in arrival order: what is emitted for a sequence is
    what is emitted for its first part, followed by what the rest emits
    from the cursor reached. *)
Lemma processFrames_app
    (processLine : string -> nat -> nat -> result (option (StreamResult Event)))
    (before after : list string) (cur : StreamCursor) :
  let first := processFrames processLine before cur in
  processFrames processLine (before ++ after) cur
  = match failure first with
    | Some e => first
    | None =>
        let second := processFrames processLine after (cursor first) in
        mkStreamOutput (emitted first ++ emitted second)
                       (cursor second) (failure second)
    end.
Proof.
  revert cur. induction before as [|jsonStr rest IH]; intros cur; simpl.
  - by destruct (processFrames processLine after cur).
  - destruct (processLine jsonStr _ _) as [[r|]|e]; simpl; [| apply IH | done].
    rewrite IH. simpl.
    destruct (failure (processFrames processLine rest _)) eqn:Hfailure; simpl;
      rewrite ?Hfailure; [done |].
    by rewrite <- app_assoc.
Qed.

End StreamLemmas.


(** C5: in the non-streaming mapper arguments that cannot be decoded
    become the empty object and every decoded body yields a response; in
    the stream callback the arguments of a tool call with a name go to
    [JSON.parse] outside any handler, and the exception leaves the
    callback: no event is returned for the frame, with the empty object or
    otherwise.  The arguments [{'a': 1}], which the non-streaming mapper
    repairs, make the callback throw as well. *)
Theorem C5_stream_arguments_not_recovered :
  (∀ (JSON_parse : string -> result JSON) generatedId openaiData,
      ∃ r, buildClaudeResponse JSON_parse generatedId openaiData = Ok r)
  ∧ buildClaudeResponse Reader.parse "msg_1"
      (OpenAIResponse.mk
         (Some [OpenAIChoice.mk
                  (OpenAIMessage.mk "assistant" None
                     (Some [OpenAIToolCall.mk "call_1" "function"
                              (OpenAIFunction.mk "f" "oops")])
                     None)
                  (Some "tool_calls")])
         None)
    = Ok (ClaudeResponse.mk "msg_1" "message" "assistant"
            [ToolUse "call_1" "f" emptyObject] (Some tool_use) None)
  ∧ (∀ (JSON_parse : string -> result JSON)
       (parseStreamResponse : string -> result OpenAIStreamResponse.t)
       (Event : Type) (processTextPart : string -> nat -> list Event)
       (processToolUsePart : string -> JSON -> nat -> list Event)
       jsonStr ti ui openaiData choice rest name arguments more e,
      parseStreamResponse jsonStr = Ok openaiData →
      OpenAIStreamResponse.choices openaiData = Some (choice :: rest) →
      OpenAIStreamDelta.tool_calls (OpenAIStreamChoice.delta choice)
        = Some (OpenAIStreamToolCall.mk
                  (Some (OpenAIStreamFunction.mk (Some name) (Some arguments)))
                :: more) →
      truthy name = true → truthy arguments = true →
      JSON_parse arguments = Throw e →
      convertStreamLine JSON_parse parseStreamResponse
        processTextPart processToolUsePart jsonStr ti ui = Throw e)
  ∧ (∀ ti ui,
      convertStreamLine Reader.parse Decode.parseStreamResponse
        recordTextPart recordToolUsePart
        (json "{`choices`:[{`delta`:{`tool_calls`:[{`function`:{`name`:`f`,`arguments`:`oops`}}]}}]}")
        ti ui
      = Throw (SyntaxError "oops"))
  ∧ (∀ ti ui,
      convertStreamLine Reader.parse Decode.parseStreamResponse
        recordTextPart recordToolUsePart
        (json "{`choices`:[{`delta`:{`tool_calls`:[{`function`:{`name`:`f`,`arguments`:`{'a': 1}`}}]}}]}")
        ti ui
      = Throw (SyntaxError "{'a': 1}")).
Proof.
  split_and!; try (intros; vm_compute; reflexivity).
  - intros. apply buildClaudeResponse_total.
  - intros JSON_parse parseStreamResponse Event processTextPart
      processToolUsePart jsonStr ti ui openaiData choice rest name arguments
      more e Hparse Hchoices Hcalls Hname Hargs Hthrow.
    unfold convertStreamLine. rewrite Hparse, result_bind_ok, Hchoices.
    cbv zeta. rewrite Hcalls, foldlM_cons.
    unfold convertStreamToolCall at 2. simpl.
    by rewrite Hname, Hargs, Hthrow.
Qed.

(** * Instances *)

(** C8 at [interruptedConversation] and at [failedConversation]: the error
    result of the user message is replaced by the interruption notice in
    the first, by the error line in the second. *)
Lemma C8_error_result_folded_witness :
  let m := ClaudeMessage.mk "user"
             (Blocks [ToolResult "t1" (TextContent "Interrupted by user: stop")
                                 (Some true);
                      Text "Try again."]) in
  let m' := ClaudeMessage.mk "user"
              (Blocks [ToolResult "t1" (TextContent "boom") (Some true)]) in
  m ∈ cleanIncompleteToolCalls interruptedConversation
  ∧ OpenAIMessage.mk "user"
      (Some (join newline [interruptedFeedback; "Try again."])) None None
    ∈ convertMessages Writer.stringify interruptedConversation
  ∧ includes (join newline [interruptedFeedback; "Try again."])
             "The previous action was interrupted" = true
  ∧ m' ∈ cleanIncompleteToolCalls failedConversation
  ∧ OpenAIMessage.mk "user" (Some "[Tool execution error: boom]") None None
    ∈ convertMessages Writer.stringify failedConversation.
Proof.
  intros m m'.
  assert (m ∈ cleanIncompleteToolCalls interruptedConversation) as Hm.
  { apply elem_of_clean. split; [| vm_compute; reflexivity].
    apply list_elem_of_In. simpl. tauto. }
  assert (m' ∈ cleanIncompleteToolCalls failedConversation) as Hm'.
  { apply elem_of_clean. split; [| vm_compute; reflexivity].
    apply list_elem_of_In. simpl. tauto. }
  destruct (C8_error_result_folded Writer.stringify interruptedConversation m
              [] [Text "Try again."] "t1"
              (TextContent "Interrupted by user: stop") Hm eq_refl)
    as (Hin & _ & Hmark & _).
  destruct (C8_error_result_folded Writer.stringify failedConversation m'
              [] [] "t1" (TextContent "boom") Hm' eq_refl)
    as (Hin' & _).
  split; [exact Hm |]. split; [exact Hin |].
  split; [apply Hmark; vm_compute; reflexivity |].
  split; [exact Hm' | exact Hin'].
Defined.

(** C8 does not extend to a message that the reconciler drops: the error
    result of this message reaches no text. *)
Lemma C8_dropped_error_result :
  let messages :=
    [ClaudeMessage.mk "user"
       (Blocks [ToolResult "t2" (TextContent "boom") (Some true);
                ToolUse "t1" "f" emptyObject])] in
  convertMessages Writer.stringify messages = []
  ∧ ¬ ∃ om text,
        om ∈ convertMessages Writer.stringify messages ∧
        OpenAIMessage.content om = Some text ∧
        includes text "Tool execution error: boom" = true.
Proof.
  intros messages.
  assert (convertMessages Writer.stringify messages = []) as H
    by (vm_compute; reflexivity).
  split; [done |]. rewrite H. intros (om & text & Hom & _). inversion Hom.
Qed.

(** C9 at [interruptedConversation], where the call of [bash] has an error
    result only and becomes a line of the assistant text, and at
    [answeredConversation], where it becomes the tool call of the
    assistant message. *)
Lemma C9_tool_use_mapping_witness :
  let m := ClaudeMessage.mk "assistant"
             (Blocks [Text "Running."; ToolUse "t1" "bash" emptyObject]) in
  let m' := ClaudeMessage.mk "assistant"
              (Blocks [ToolUse "t1" "bash" (JObject [("cmd", JString "ls")])]) in
  m ∈ cleanIncompleteToolCalls interruptedConversation
  ∧ ("t1" ∉ collectSuccessfulToolResultIds interruptedConversation)
  ∧ OpenAIMessage.mk "assistant"
      (Some (join newline
               ["Running.";
                "[User interrupted: bash operation was cancelled by user]"]))
      None None
    ∈ convertMessages Writer.stringify interruptedConversation
  ∧ m' ∈ cleanIncompleteToolCalls answeredConversation
  ∧ "t1" ∈ collectSuccessfulToolResultIds answeredConversation
  ∧ OpenAIMessage.mk "assistant" None
      (Some [OpenAIToolCall.mk "t1" "function"
               (OpenAIFunction.mk "bash" (json "{`cmd`:`ls`}"))])
      None
    ∈ convertMessages Writer.stringify answeredConversation.
Proof.
  intros m m'.
  assert (m ∈ cleanIncompleteToolCalls interruptedConversation) as Hm.
  { apply elem_of_clean. split; [| vm_compute; reflexivity].
    apply list_elem_of_In. simpl. tauto. }
  assert ("t1" ∉ collectSuccessfulToolResultIds interruptedConversation) as Hnot.
  { apply (bool_decide_eq_false_1
             ("t1" ∈ collectSuccessfulToolResultIds interruptedConversation)).
    vm_compute. reflexivity. }
  assert (m' ∈ cleanIncompleteToolCalls answeredConversation) as Hm'.
  { apply elem_of_clean. split; [| vm_compute; reflexivity].
    apply list_elem_of_In. simpl. tauto. }
  assert ("t1" ∈ collectSuccessfulToolResultIds answeredConversation) as Hyes.
  { apply (bool_decide_eq_true_1
             ("t1" ∈ collectSuccessfulToolResultIds answeredConversation)).
    vm_compute. reflexivity. }
  destruct (C9_tool_use_mapping Writer.stringify interruptedConversation m
              [Text "Running."] [] "t1" "bash" emptyObject Hm eq_refl)
    as (_ & Hinterrupted & _).
  destruct (Hinterrupted Hnot) as (_ & Hin & _).
  destruct (C9_tool_use_mapping Writer.stringify answeredConversation m'
              [] [] "t1" "bash" (JObject [("cmd", JString "ls")]) Hm' eq_refl)
    as (_ & _ & Hanswered).
  split; [exact Hm |]. split; [exact Hnot |]. split; [exact Hin |].
  split; [exact Hm' |]. split; [exact Hyes |]. exact (Hanswered Hyes).
Defined.

(** C7 at a 503 response that announces an event stream and whose body is
    not JSON. *)
Lemma C7_error_response_relayed_witness :
  let openaiResponse :=
    Response.mk 503 [("content-type", "text/event-stream")]
                "upstream unavailable" in
  ¬ (200 ≤ Response.status openaiResponse ≤ 299)%Z
  ∧ convertToClaudeResponse Reader.parse Decode.parseStreamResponse
      recordTextPart recordToolUsePart
      (fun r => [Response.body r]) (fun r _ => r)
      Decode.response_json Writer.stringifyClaudeResponse
      "msg_1" openaiResponse
    = Ok openaiResponse.
Proof.
  intros openaiResponse.
  assert (¬ (200 ≤ Response.status openaiResponse ≤ 299)%Z) as H
    by (simpl; lia).
  split; [exact H |]. by apply C7_error_response_relayed.
Defined.

(** C10 at a 200 response with an empty list of choices and a usage. *)
Lemma C10_no_choices_no_stop_reason_witness :
  let openaiResponse :=
    Response.mk 200 [("content-type", "application/json")]
      (json "{`choices`:[],`usage`:{`prompt_tokens`:3,`completion_tokens`:4}}") in
  (200 ≤ Response.status openaiResponse ≤ 299)%Z
  ∧ Decode.response_json (Response.body openaiResponse)
    = Ok (OpenAIResponse.mk (Some []) (Some (OpenAIUsage.mk 3 4)))
  ∧ convertToClaudeResponse Reader.parse Decode.parseStreamResponse
      recordTextPart recordToolUsePart
      (fun r => [Response.body r]) (fun r _ => r)
      Decode.response_json Writer.stringifyClaudeResponse
      "msg_1" openaiResponse
    = Ok (Response.mk 200 [("content-type", "application/json")]
            (json "{`id`:`msg_1`,`type`:`message`,`role`:`assistant`,`content`:[],`usage`:{`input_tokens`:3,`output_tokens`:4}}")).
Proof.
  intros openaiResponse.
  assert ((200 ≤ Response.status openaiResponse ≤ 299)%Z) as Hstatus
    by (simpl; lia).
  assert (Decode.response_json (Response.body openaiResponse)
          = Ok (OpenAIResponse.mk (Some []) (Some (OpenAIUsage.mk 3 4)))) as Hjson
    by (vm_compute; reflexivity).
  destruct (C10_no_choices_no_stop_reason Reader.parse
              Decode.parseStreamResponse Part recordTextPart recordToolUsePart
              (fun r => [Response.body r]) (fun r _ => r)
              Decode.response_json Writer.stringifyClaudeResponse
              "msg_1" openaiResponse
              (OpenAIResponse.mk (Some []) (Some (OpenAIUsage.mk 3 4)))
              Hstatus eq_refl Hjson (or_intror eq_refl))
    as (_ & _ & _ & Hdispatch).
  split; [exact Hstatus |]. split; [exact Hjson |].
  eapply eq_trans; [exact Hdispatch |]. vm_compute. reflexivity.
Defined.

(** C1 at [interruptedConversation]: the call of [bash] is kept, and its id
    is among the collected result ids. *)
Lemma C1_reconciler_no_unanswered_tool_use_witness :
  let m := ClaudeMessage.mk "assistant"
             (Blocks [Text "Running."; ToolUse "t1" "bash" emptyObject]) in
  m ∈ cleanIncompleteToolCalls interruptedConversation
  ∧ "t1" ∈ collectToolResultIds interruptedConversation
  ∧ hasResult "t1" interruptedConversation.
Proof.
  intros m.
  assert (m ∈ cleanIncompleteToolCalls interruptedConversation) as Hm.
  { apply elem_of_clean. split; [| vm_compute; reflexivity].
    apply list_elem_of_In. simpl. tauto. }
  destruct (C1_reconciler_no_unanswered_tool_use Writer.stringify
              interruptedConversation) as (Hkept & _).
  split; [exact Hm |].
  apply (Hkept m [Text "Running."; ToolUse "t1" "bash" emptyObject]
               "t1" "bash" emptyObject Hm eq_refl).
  apply list_elem_of_In. simpl. tauto.
Defined.

(** C6 at a body with one tool call whose arguments are single-quoted. *)
Lemma C6_arguments_repair_witness :
  let toolCall :=
    OpenAIToolCall.mk "call_1" "function" (OpenAIFunction.mk "f" "{'a': 1}") in
  let choice :=
    OpenAIChoice.mk (OpenAIMessage.mk "assistant" None (Some [toolCall]) None)
                    (Some "tool_calls") in
  ∃ r,
    buildClaudeResponse Reader.parse "msg_1"
      (OpenAIResponse.mk (Some [choice]) None) = Ok r
    ∧ ClaudeResponse.content r
      = [ToolUse "call_1" "f" (JObject [("a", JNumber 1 0)])].
Proof.
  intros toolCall choice.
  destruct C6_arguments_repair as (Hgeneral & _).
  destruct (Hgeneral Reader.parse "msg_1"
              (OpenAIResponse.mk (Some [choice]) None) choice [] [toolCall]
              eq_refl eq_refl) as (r & Hr & _ & Hcontent).
  assert (Reader.parse "{}" = Ok emptyObject) as Hobject
    by (vm_compute; reflexivity).
  assert (∃ e, Reader.parse EmptyString = Throw e) as Hempty
    by (exists (SyntaxError EmptyString); vm_compute; reflexivity).
  exists r. split; [exact Hr |].
  eapply eq_trans; [exact (Hcontent Hobject Hempty) |].
  vm_compute. reflexivity.
Defined.


(** * Further properties *)

(** ** The reconciler *)

Lemma filter_sublist {A} (f : A -> bool) (l : list A) :
  sublist (List.filter f l) l.
Proof.
  induction l as [|a l IH]; simpl; [constructor |].
  destruct (f a); by constructor.
Qed.

(** X1: a conversation in which every tool call has a result, error or
    not, somewhere in the conversation is returned unchanged. *)
Theorem X1_clean_complete_conversation (messages : list ClaudeMessage.t) :
  (∀ m blocks id name input,
      m ∈ messages → ClaudeMessage.content m = Blocks blocks →
      ToolUse id name input ∈ blocks → hasResult id messages) →
  cleanIncompleteToolCalls messages = messages.
Proof.
  intros Hcomplete. unfold cleanIncompleteToolCalls. apply filter_all_kept.
  intros m Hm. apply keepMessage_spec. intros blocks id name input Hc Hin.
  apply collectToolResultIds_spec. by eapply Hcomplete.
Qed.

Lemma X1_clean_complete_conversation_witness :
  (∀ m blocks id name input,
      m ∈ answeredConversation → ClaudeMessage.content m = Blocks blocks →
      ToolUse id name input ∈ blocks → hasResult id answeredConversation)
  ∧ cleanIncompleteToolCalls answeredConversation = answeredConversation.
Proof.
  assert (∀ m blocks id name input,
      m ∈ answeredConversation → ClaudeMessage.content m = Blocks blocks →
      ToolUse id name input ∈ blocks → hasResult id answeredConversation) as H.
  { intros m blocks id name input Hm Hc Hin.
    assert (id = "t1") as ->.
    { apply list_elem_of_In in Hm. simpl in Hm.
      destruct Hm as [<- | [<- | []]]; simpl in Hc; injection Hc as <-;
        apply list_elem_of_In in Hin; simpl in Hin;
        destruct Hin as [Heq | []]; by inversion Heq. }
    apply collectToolResultIds_spec.
    apply (bool_decide_eq_true_1
             ("t1" ∈ collectToolResultIds answeredConversation)).
    vm_compute. reflexivity. }
  split; [exact H | exact (X1_clean_complete_conversation _ H)].
Defined.

(** X2: when no message carries both a tool call and a tool result (calls
    in one message, results in another), a second pass of the reconciler
    changes nothing. *)
Theorem X2_clean_idempotent_separate_results (messages : list ClaudeMessage.t) :
  (∀ m blocks id c e,
      m ∈ messages → ClaudeMessage.content m = Blocks blocks →
      ToolResult id c e ∈ blocks → existsb isToolUse blocks = false) →
  cleanIncompleteToolCalls (cleanIncompleteToolCalls messages)
  = cleanIncompleteToolCalls messages.
Proof.
  intros Hseparate. apply clean_idempotent_when_results_survive.
  intros id (m & blocks & c & e & Hm & Hc & Hin).
  exists m, blocks, c, e. split_and!; try done.
  apply elem_of_clean. split; [done |].
  unfold keepMessage. rewrite Hc.
  by rewrite (Hseparate m blocks id c e Hm Hc Hin).
Qed.

Lemma X2_clean_idempotent_separate_results_witness :
  (∀ m blocks id c e,
      m ∈ interruptedConversation → ClaudeMessage.content m = Blocks blocks →
      ToolResult id c e ∈ blocks → existsb isToolUse blocks = false)
  ∧ cleanIncompleteToolCalls (cleanIncompleteToolCalls interruptedConversation)
    = cleanIncompleteToolCalls interruptedConversation.
Proof.
  assert (∀ m blocks id c e,
      m ∈ interruptedConversation → ClaudeMessage.content m = Blocks blocks →
      ToolResult id c e ∈ blocks → existsb isToolUse blocks = false) as H.
  { intros m blocks id c e Hm Hc Hin.
    apply list_elem_of_In in Hm. simpl in Hm.
    destruct Hm as [<- | [<- | []]]; simpl in Hc; injection Hc as <-.
    - apply list_elem_of_In in Hin. simpl in Hin.
      destruct Hin as [Heq | [Heq | []]]; inversion Heq.
    - reflexivity. }
  split; [exact H | exact (X2_clean_idempotent_separate_results _ H)].
Defined.

(** X3: the reconciler only removes messages: what it returns is a
    subsequence of its input, in the same order, and it keeps every message
    with a string content and every message without a tool call. *)
Theorem X3_clean_only_removes (messages : list ClaudeMessage.t) :
  sublist (cleanIncompleteToolCalls messages) messages
  ∧ (∀ m text,
       m ∈ messages → ClaudeMessage.content m = Plain text →
       m ∈ cleanIncompleteToolCalls messages)
  ∧ (∀ m blocks,
       m ∈ messages → ClaudeMessage.content m = Blocks blocks →
       (∀ id name input, ToolUse id name input ∉ blocks) →
       m ∈ cleanIncompleteToolCalls messages).
Proof.
  split_and!.
  - apply filter_sublist.
  - intros m text Hm Hc. apply elem_of_clean. split; [done |].
    unfold keepMessage. by rewrite Hc.
  - intros m blocks Hm Hc Hnone. apply elem_of_clean. split; [done |].
    apply keepMessage_spec. intros bs id name input Hc' Hin.
    rewrite Hc in Hc'. injection Hc' as <-. by destruct (Hnone id name input).
Qed.

(** ** The request mapper *)

(** X4: a conversation of string contents maps message by message: one
    provider message each, in order, with the same text; the role is
    assistant for assistant and user for any other role. *)
Theorem X4_convertMessages_plain (JSON_stringify : JSON -> string)
    (turns : list (string * string)) :
  convertMessages JSON_stringify
    (map (fun turn => ClaudeMessage.mk (fst turn) (Plain (snd turn))) turns)
  = map (fun turn =>
           OpenAIMessage.mk
             (if String.eqb (fst turn) "assistant" then "assistant" else "user")
             (Some (snd turn)) None None) turns.
Proof.
  rewrite convertMessages_emitted. unfold cleanIncompleteToolCalls.
  rewrite (filter_all_kept _ _).
  - induction turns as [|turn turns IH]; [done |].
    simpl. f_equal. apply IH.
  - intros m Hm. apply list_elem_of_In, in_map_iff in Hm as (turn & <- & _).
    reflexivity.
Qed.

(** X5: every message of the payload is well formed.  A message of role
    tool has an id and a content and no tool calls; any other message has
    role user or assistant, no id, a content or tool calls, and its
    [tool_calls] is never the empty list. *)
Theorem X5_convertMessages_well_formed (JSON_stringify : JSON -> string)
    (messages : list ClaudeMessage.t) (om : OpenAIMessage.t) :
  om ∈ convertMessages JSON_stringify messages →
  (OpenAIMessage.role om = "tool"
   ∧ is_Some (OpenAIMessage.tool_call_id om)
   ∧ is_Some (OpenAIMessage.content om)
   ∧ OpenAIMessage.tool_calls om = None)
  ∨ ((OpenAIMessage.role om = "user" ∨ OpenAIMessage.role om = "assistant")
     ∧ OpenAIMessage.tool_call_id om = None
     ∧ (is_Some (OpenAIMessage.content om)
        ∨ is_Some (OpenAIMessage.tool_calls om))
     ∧ OpenAIMessage.tool_calls om ≠ Some []).
Proof.
  rewrite convertMessages_emitted, list_elem_of_In, in_flat_map.
  intros (m & _ & Hom).
  assert (providerRole m = "user" ∨ providerRole m = "assistant") as Hrole.
  { unfold providerRole. destruct (String.eqb _ _); auto. }
  unfold emittedFor in Hom.
  destruct (ClaudeMessage.content m) as [text|blocks].
  - simpl in Hom. destruct Hom as [<- | []]. right. simpl. split_and!; eauto.
  - apply in_app_or in Hom as [Hom | Hom].
    + right.
      destruct (flat_map (textLinesOf _ _) blocks) as [|t ts] eqn:Et;
        destruct (flat_map (toolCallsOf _ _) blocks) as [|c cs] eqn:Ec;
        simpl in Hom; try (by destruct Hom);
        destruct Hom as [<- | []]; simpl; split_and!; eauto; done.
    + apply in_map_iff in Hom as (r & <- & _). left. simpl.
      split_and!; eauto.
Qed.

Lemma X5_convertMessages_well_formed_witness :
  let om := OpenAIMessage.mk "assistant" None
              (Some [OpenAIToolCall.mk "t1" "function"
                       (OpenAIFunction.mk "bash" (json "{`cmd`:`ls`}"))])
              None in
  om ∈ convertMessages Writer.stringify answeredConversation
  ∧ OpenAIMessage.tool_calls om ≠ Some [].
Proof.
  intros om.
  assert (om ∈ convertMessages Writer.stringify answeredConversation) as Hom.
  { assert (convertMessages Writer.stringify answeredConversation
            = [om; OpenAIMessage.mk "tool" (Some "a.txt") None (Some "t1")]) as ->
      by (vm_compute; reflexivity).
    apply list_elem_of_In. simpl. tauto. }
  split; [exact Hom |].
  destruct (X5_convertMessages_well_formed Writer.stringify
              answeredConversation om Hom) as [(Hrole & _) | (_ & _ & _ & H)].
  - discriminate Hrole.
  - exact H.
Defined.

(** X6: the payload is the concatenation, in the order of the kept
    messages, of what each kept message stands for: its own provider
    message, when it has a text line or a tool call, followed by one
    message of role tool for each of its results that is not an error, in
    the order of the blocks. *)
Theorem X6_convertMessages_message_by_message
    (JSON_stringify : JSON -> string) (messages : list ClaudeMessage.t) :
  let successful := collectSuccessfulToolResultIds messages in
  convertMessages JSON_stringify messages
  = flat_map
      (fun m =>
         match ClaudeMessage.content m with
         | Plain text =>
             [OpenAIMessage.mk (providerRole m) (Some text) None None]
         | Blocks blocks =>
             let texts := flat_map (textLinesOf JSON_stringify successful) blocks in
             let calls := flat_map (toolCallsOf JSON_stringify successful) blocks in
             (if (0 <? length texts)%nat || (0 <? length calls)%nat then
                [OpenAIMessage.mk (providerRole m)
                   (if (0 <? length texts)%nat
                    then Some (join newline texts) else None)
                   (if (0 <? length calls)%nat then Some calls else None)
                   None]
              else [])
             ++ map (fun r => OpenAIMessage.mk "tool" (Some (snd r)) None
                                (Some (fst r)))
                    (flat_map (toolResultsOf JSON_stringify) blocks)
         end)
      (cleanIncompleteToolCalls messages).
Proof.
  intros successful. rewrite convertMessages_emitted.
  induction (cleanIncompleteToolCalls messages) as [|m ms IH]; [done |].
  simpl. rewrite IH. f_equal.
  unfold emittedFor. fold successful.
  destruct (ClaudeMessage.content m) as [text|blocks]; [done |].
  cbv zeta.
  destruct (flat_map (textLinesOf _ _) blocks) as [|t ts];
    by destruct (flat_map (toolCallsOf _ _) blocks) as [|c cs].
Qed.

(** ** The request builder *)

Lemma result_bind_throw {A B} (e : Exn) (k : A -> result B) :
  Throw e ≫= k = Throw e.
Proof. reflexivity. Qed.

Section RequestBuilderProperties.

Variable JSON_stringify : JSON -> string.
Variable cleanJsonSchema : JSON -> JSON.
Variable request_json : string -> result ClaudeRequest.t.
Variable stringifyOpenAIRequest : OpenAIRequest.t -> string.

Local Abbreviation build :=
  (convertToProviderRequest JSON_stringify cleanJsonSchema request_json
     stringifyOpenAIRequest).



End RequestBuilderProperties.

(** ** The non-streaming mapper and the dispatcher *)

(** The non-streaming mapper throws exactly when the body cannot be
    decoded. *)
Lemma convertNormalResponse_throws
    (JSON_parse : string -> result JSON)
    (response_json : string -> result OpenAIResponse.t)
    (stringifyClaudeResponse : ClaudeResponse.t -> string)
    (generatedId : string) (openaiResponse : Response.t) (e : Exn) :
  convertNormalResponse JSON_parse response_json stringifyClaudeResponse
    generatedId openaiResponse = Throw e
  ↔ response_json (Response.body openaiResponse) = Throw e.
Proof.
  unfold convertNormalResponse.
  destruct (response_json (Response.body openaiResponse)) as [openaiData|e'].
  - rewrite result_bind_ok.
    destruct (buildClaudeResponse_total JSON_parse generatedId openaiData)
      as [claudeResponse ->].
    rewrite result_bind_ok. split; intros H; discriminate H.
  - rewrite result_bind_throw. split; intros [= ->]; reflexivity.
Qed.

Section ResponseProperties.

Variable JSON_parse : string -> result JSON.
Variable parseStreamResponse : string -> result OpenAIStreamResponse.t.
Variable Event : Type.
Variable processTextPart : string -> nat -> list Event.
Variable processToolUsePart : string -> JSON -> nat -> list Event.
Variable frames_of : Response.t -> list string.
Variable streamed : Response.t -> StreamOutput Event -> Response.t.
Variable response_json : string -> result OpenAIResponse.t.
Variable stringifyClaudeResponse : ClaudeResponse.t -> string.

Local Abbreviation normal :=
  (convertNormalResponse JSON_parse response_json stringifyClaudeResponse).
Local Abbreviation dispatch :=
  (convertToClaudeResponse JSON_parse parseStreamResponse
     processTextPart processToolUsePart frames_of streamed
     response_json stringifyClaudeResponse).



End ResponseProperties.

(** ** The stream callback *)

Section StreamCallbackProperties.

Variable JSON_parse : string -> result JSON.
Variable parseStreamResponse : string -> result OpenAIStreamResponse.t.

Local Abbreviation record :=
  (convertStreamLine JSON_parse parseStreamResponse
     recordTextPart recordToolUsePart).

Lemma convertStreamToolCall_incomplete (st : StreamResult Part)
    (toolCall : OpenAIStreamToolCall.t) :
  completeCall toolCall = None →
  convertStreamToolCall JSON_parse recordToolUsePart st toolCall = Ok st.
Proof.
  unfold completeCall, convertStreamToolCall.
  destruct (OpenAIStreamToolCall.function toolCall) as [fn|]; [| done].
  destruct (OpenAIStreamFunction.name fn) as [name|]; [| done].
  destruct (OpenAIStreamFunction.arguments fn) as [arguments|]; [| done].
  by destruct (truthy name && truthy arguments).
Qed.

Lemma convertStreamToolCall_complete (st : StreamResult Part)
    (toolCall : OpenAIStreamToolCall.t) (name arguments : string) :
  completeCall toolCall = Some (name, arguments) →
  convertStreamToolCall JSON_parse recordToolUsePart st toolCall
  = JSON_parse arguments ≫= fun args =>
      Ok (mkStreamResult
            (events st ++ [ToolUsePart name args (toolUseBlockIndex st)])
            (textBlockIndex st) (S (toolUseBlockIndex st))).
Proof.
  unfold completeCall, convertStreamToolCall.
  destruct (OpenAIStreamToolCall.function toolCall) as [fn|]; [| done].
  destruct (OpenAIStreamFunction.name fn) as [n|]; [| done].
  destruct (OpenAIStreamFunction.arguments fn) as [a|]; [| done].
  destruct (truthy n && truthy a); [| done].
  by intros [= -> ->].
Qed.

(** The loop over the tool calls of a delta: the arguments of the complete
    calls are parsed in order, and the parts are numbered from the index
    handed in. *)
Lemma convertStreamToolCalls_parsed (tool_calls : list OpenAIStreamToolCall.t)
    (st : StreamResult Part) :
  foldlM (convertStreamToolCall JSON_parse recordToolUsePart) st tool_calls
  = parseCalls JSON_parse (omap completeCall tool_calls) ≫= fun calls =>
      Ok (mkStreamResult
            (events st ++ toolParts (toolUseBlockIndex st) calls)
            (textBlockIndex st)
            (toolUseBlockIndex st + length calls)).
Proof.
  revert st. induction tool_calls as [|tc tcs IH]; intros st.
  - simpl. rewrite app_nil_r, Nat.add_0_r. by destruct st.
  - rewrite foldlM_cons.
    change (omap completeCall (tc :: tcs))
      with (match completeCall tc with
            | Some call => call :: omap completeCall tcs
            | None => omap completeCall tcs
            end).
    destruct (completeCall tc) as [[name arguments]|] eqn:Hcall.
    + rewrite (convertStreamToolCall_complete st tc name arguments Hcall).
      change (parseCalls JSON_parse ((name, arguments) :: omap completeCall tcs))
        with (JSON_parse arguments ≫= fun args =>
                parseCalls JSON_parse (omap completeCall tcs) ≫= fun parsed =>
                  Ok ((name, args) :: parsed)).
      destruct (JSON_parse arguments) as [args|e]; [| reflexivity].
      rewrite !result_bind_ok, IH.
      destruct (parseCalls JSON_parse (omap completeCall tcs)) as [calls|e];
        [| reflexivity].
      rewrite !result_bind_ok. cbn [events textBlockIndex toolUseBlockIndex].
      rewrite <- app_assoc. cbn [toolParts length app].
      do 2 f_equal. lia.
    + rewrite (convertStreamToolCall_incomplete st tc Hcall), result_bind_ok.
      apply IH.
Qed.

(** The text block of the callback, from an empty result. *)
Lemma convertStreamText_textParts (content : option string) (ti ui : nat) :
  convertStreamText recordTextPart (mkStreamResult [] ti ui) content
  = mkStreamResult (textParts content ti)
                   (ti + length (textParts content ti)) ui.
Proof.
  unfold convertStreamText, textParts.
  destruct content as [t|]; simpl.
  - destruct (truthy t); simpl; f_equal; lia.
  - f_equal. lia.
Qed.

Lemma omap_completeCall_nil (tool_calls : list OpenAIStreamToolCall.t) :
  (∀ tc, tc ∈ tool_calls → completeCall tc = None) →
  omap completeCall tool_calls = [].
Proof.
  induction tool_calls as [|tc tcs IH]; intros Hnone; [done |].
  change (omap completeCall (tc :: tcs))
    with (match completeCall tc with
          | Some call => call :: omap completeCall tcs
          | None => omap completeCall tcs
          end).
  rewrite (Hnone tc) by left. apply IH. intros tc' Htc'. apply Hnone. by right.
Qed.


(** X12: a delta none of whose tool calls carries both a non-empty name
    and non-empty arguments (a fragment that continues the arguments of a
    call, for one) yields no tool part and leaves the tool index as it
    was; [JSON.parse] is not called, so such a frame never throws, whatever
    its arguments hold. *)
Theorem X12_stream_incomplete_calls_dropped (jsonStr : string) (ti ui : nat)
    (openaiData : OpenAIStreamResponse.t) (choice : OpenAIStreamChoice.t)
    (rest : list OpenAIStreamChoice.t) :
  parseStreamResponse jsonStr = Ok openaiData →
  OpenAIStreamResponse.choices openaiData = Some (choice :: rest) →
  (∀ toolCall tool_calls,
      OpenAIStreamDelta.tool_calls (OpenAIStreamChoice.delta choice)
        = Some tool_calls →
      toolCall ∈ tool_calls →
      truthyOption (OpenAIStreamToolCall.function toolCall
                      ≫= OpenAIStreamFunction.name) = false
      ∨ truthyOption (OpenAIStreamToolCall.function toolCall
                        ≫= OpenAIStreamFunction.arguments) = false) →
  let text :=
    textParts (OpenAIStreamDelta.content (OpenAIStreamChoice.delta choice)) ti in
  record jsonStr ti ui
  = Ok (Some (mkStreamResult text (ti + length text) ui)).
Proof.
  intros Hparse Hchoices Hincomplete text.
  unfold convertStreamLine. rewrite Hparse, result_bind_ok, Hchoices.
  cbv zeta. rewrite convertStreamText_textParts. fold text.
  destruct (OpenAIStreamDelta.tool_calls (OpenAIStreamChoice.delta choice))
    as [tool_calls|]; [| reflexivity].
  rewrite convertStreamToolCalls_parsed, omap_completeCall_nil.
  - change (parseCalls JSON_parse []) with (Ok (@nil (string * JSON))).
    rewrite !result_bind_ok.
    cbn [toolParts length events textBlockIndex toolUseBlockIndex].
    by rewrite app_nil_r, Nat.add_0_r.
  - intros tc Htc. unfold completeCall.
    destruct (Hincomplete tc tool_calls eq_refl Htc) as [Hn | Ha];
      destruct (OpenAIStreamToolCall.function tc) as [fn|]; try done;
      simpl in *;
      destruct (OpenAIStreamFunction.name fn) as [n|]; try done;
      destruct (OpenAIStreamFunction.arguments fn) as [a|]; try done;
      simpl in *.
    + by rewrite Hn.
    + by rewrite Ha, andb_false_r.
Qed.

End StreamCallbackProperties.

(** ** The router *)

Lemma split_on_cons (sep : ascii) (s : string) :
  ∃ first others, split_on sep s = first :: others.
Proof.
  induction s as [|c s (first & others & IH)]; simpl; [by eauto |].
  destruct (Ascii.eqb c sep); [by eauto |]. rewrite IH. by eauto.
Qed.

(** Splitting distributes over a separator. *)
Lemma split_on_app (sep : ascii) (a b : string) :
  split_on sep (a +:+ String sep b) = split_on sep a ++ split_on sep b.
Proof.
  induction a as [|c a IH].
  - rewrite string_app_nil_l. simpl. by rewrite Ascii.eqb_refl.
  - rewrite string_app_cons. simpl. rewrite IH.
    destruct (Ascii.eqb c sep); [done |].
    by destruct (split_on_cons sep a) as (first & others & ->).
Qed.

Lemma split_on_sepFree (sep : ascii) (s : string) :
  sepFree sep s = true → split_on sep s = [s].
Proof.
  induction s as [|c s IH]; simpl; [done |].
  intros [Hc Hs]%andb_true_iff. apply negb_true_iff in Hc.
  by rewrite Hc, (IH Hs).
Qed.

Lemma pathPartsOf_app (a b : string) :
  pathPartsOf (a +:+ "/" +:+ b) = pathPartsOf a ++ pathPartsOf b.
Proof.
  unfold pathPartsOf.
  change ("/" +:+ b) with (String "/"%char b).
  by rewrite split_on_app, List.filter_app.
Qed.

Lemma pathPartsOf_slash (b : string) : pathPartsOf ("/" +:+ b) = pathPartsOf b.
Proof.
  change ("/" +:+ b) with (EmptyString +:+ "/" +:+ b).
  by rewrite pathPartsOf_app.
Qed.

Lemma pathPartsOf_segment (s : string) : segment s = true → pathPartsOf s = [s].
Proof.
  intros [Hne Hfree]%andb_true_iff. unfold pathPartsOf.
  rewrite (split_on_sepFree _ _ Hfree). simpl. by rewrite Hne.
Qed.

Lemma pathPartsOf_join (segments : list string) :
  Forall (fun s => segment s = true) segments →
  pathPartsOf (join "/" segments) = segments.
Proof.
  induction 1 as [|s segments Hs Hrest IH]; [done |].
  destruct segments as [|s' segments].
  - by apply pathPartsOf_segment.
  - change (join "/" (s :: s' :: segments))
      with (s +:+ "/" +:+ join "/" (s' :: segments)).
    by rewrite pathPartsOf_app, (pathPartsOf_segment _ Hs), IH.
Qed.

(** The parts of a path are never empty strings. *)
Lemma pathPartsOf_truthy (pathname part : string) :
  part ∈ pathPartsOf pathname → truthy part = true.
Proof.
  unfold pathPartsOf. rewrite list_elem_of_In, filter_In. by intros [_ H].
Qed.

Lemma lastTwo_inv (parts : list string) (a b : string) :
  lastTwo parts !! 0 = Some a → lastTwo parts !! 1 = Some b →
  parts = withoutLastTwo parts ++ [a; b].
Proof.
  unfold lastTwo, withoutLastTwo. intros H0 H1.
  rewrite <- (take_drop (length parts - 2) parts) at 1. f_equal.
  assert (length (drop (length parts - 2) parts) <= 2)%nat as Hlen
    by (rewrite length_drop; lia).
  destruct (drop (length parts - 2) parts) as [|x [|y [|z l]]];
    simpl in *; try done; [by simplify_eq | lia].
Qed.

Lemma lastTwo_app (parts : list string) (a b : string) :
  lastTwo (parts ++ [a; b]) = [a; b]
  ∧ withoutLastTwo (parts ++ [a; b]) = parts.
Proof.
  unfold lastTwo, withoutLastTwo. rewrite length_app. simpl.
  replace (length parts + 2 - 2) with (length parts) by lia.
  split; [by rewrite drop_app_length | by rewrite take_app_length].
Qed.

(** Parts that do not end in v1, messages are left as they are. *)
Lemma stripMessagesSuffix_id (parts : list string) :
  ¬ (∃ front, parts = front ++ ["v1"; "messages"]) →
  stripMessagesSuffix parts = parts.
Proof.
  intros Hno. unfold stripMessagesSuffix.
  destruct (lastTwo parts !! 0) as [a|] eqn:H0; [| done].
  destruct (lastTwo parts !! 1) as [b|] eqn:H1; [| done].
  destruct (String.eqb_spec a "v1") as [-> |]; [| done].
  destruct (String.eqb_spec b "messages") as [-> |]; [| done].
  exfalso. apply Hno. exists (withoutLastTwo parts). by apply lastTwo_inv.
Qed.

Lemma stripMessagesSuffix_app (parts : list string) :
  stripMessagesSuffix (parts ++ ["v1"; "messages"]) = parts.
Proof.
  unfold stripMessagesSuffix.
  destruct (lastTwo_app parts "v1" "messages") as [-> ->]. done.
Qed.

(** A reconstructed URL begins with a scheme. *)
Lemma reconstructUrl_scheme (parts : list string) :
  String.prefix "https://" (reconstructUrl parts) = true
  ∨ String.prefix "http://" (reconstructUrl parts) = true.
Proof.
  unfold reconstructUrl. destruct parts as [|first rest].
  - left. apply prefix_app.
  - destruct (String.eqb_spec first "https:") as [-> |]; simpl.
    + left. apply (prefix_app "https://").
    + destruct (String.eqb_spec first "http:") as [-> |]; simpl.
      * right. apply (prefix_app "http://").
      * left. apply prefix_app.
Qed.

Lemma reconstructUrl_truthy (parts : list string) :
  truthy (reconstructUrl parts) = true.
Proof.
  destruct (reconstructUrl_scheme parts) as [H | H];
    apply prefix_inv in H as [b ->]; reflexivity.
Qed.

Lemma substring_all (s : string) : String.substring 0 (String.length s) s = s.
Proof. induction s as [|c s IH]; simpl; [done | by rewrite IH]. Qed.

Lemma bearer_token (token : string) :
  startsWith ("Bearer " +:+ token) "Bearer " = true
  ∧ substringFrom 7 ("Bearer " +:+ token) = token.
Proof.
  split; [apply prefix_app |].
  unfold substringFrom. simpl. rewrite Nat.sub_0_r. apply substring_all.
Qed.

Section RouterProperties.

Variable toUpperCase : string -> string.
Variable supported : string -> bool.
Variable env : gmap string string.

Local Abbreviation resolveKey := (resolveApiKey toUpperCase env).
Local Abbreviation routed := (route toUpperCase supported env).

(** The handler once the path has at least two parts. *)
Lemma route_parts (pathname : string) (headers : gmap string string)
    (type : string) (first : string) (others : list string) :
  pathPartsOf pathname = type :: first :: others →
  routed pathname headers
  = if negb (supported type) then
      Reject 400 ("Provider " +:+ type +:+ " not supported")
    else
      match resolveKey type headers with
      | Some apiKey =>
          if truthy apiKey
          then Forward type (resolveBaseUrl (first :: others)) apiKey
          else Reject 401 "Missing API key. Please provide it via x-api-key header or environment variable (GEMINI_API_KEY or OPENAI_API_KEY)"
      | None =>
          Reject 401 "Missing API key. Please provide it via x-api-key header or environment variable (GEMINI_API_KEY or OPENAI_API_KEY)"
      end.
Proof.
  intros Hparts. unfold route. rewrite Hparts.
  assert (truthy type = true) as Htype.
  { apply (pathPartsOf_truthy pathname). rewrite Hparts. left. }
  cbn [length Nat.ltb Nat.leb lookup list_lookup default drop].
  change (id type) with type.
  unfold resolveBaseUrl. by rewrite Htype, reconstructUrl_truthy.
Qed.

(** X13: a provider URL with its scheme comes back as it was written in
    the path.  For a type and path segments without slashes, none empty,
    the segments not ending in v1, messages, the request on
    /type/scheme//seg1/.../segn of a supported type with a usable key is
    forwarded to scheme//seg1/.../segn. *)
Theorem X13_route_url_with_scheme (type scheme apiKey : string)
    (segments : list string) (headers : gmap string string) :
  segment type = true →
  scheme = "https:" ∨ scheme = "http:" →
  Forall (fun s => segment s = true) segments →
  ¬ (∃ front, segments = front ++ ["v1"; "messages"]) →
  supported type = true →
  resolveKey type headers = Some apiKey → truthy apiKey = true →
  let url := scheme +:+ "//" +:+ join "/" segments in
  pathPartsOf ("/" +:+ type +:+ "/" +:+ url) = type :: scheme :: segments
  ∧ routed ("/" +:+ type +:+ "/" +:+ url) headers = Forward type url apiKey.
Proof.
  intros Htype Hscheme Hsegments Hsuffix Hsupported Hkey Htruthy url.
  assert (segment scheme = true) as Hs
    by (destruct Hscheme as [-> | ->]; reflexivity).
  assert (pathPartsOf ("/" +:+ type +:+ "/" +:+ url) = type :: scheme :: segments)
    as Hparts.
  { subst url. rewrite pathPartsOf_slash, pathPartsOf_app.
    change ("//" +:+ join "/" segments) with ("/" +:+ "/" +:+ join "/" segments).
    rewrite pathPartsOf_app, pathPartsOf_slash.
    by rewrite (pathPartsOf_segment _ Htype), (pathPartsOf_segment _ Hs),
      (pathPartsOf_join _ Hsegments). }
  split; [exact Hparts |].
  rewrite (route_parts _ _ _ _ _ Hparts), Hsupported, Hkey, Htruthy. simpl.
  f_equal. unfold resolveBaseUrl. rewrite stripMessagesSuffix_id.
  - subst url. unfold reconstructUrl. by destruct Hscheme as [-> | ->].
  - intros (front & Hfront). apply Hsuffix.
    destruct front as [|f front].
    + simpl in Hfront. injection Hfront as -> _.
      by destruct Hscheme.
    + simpl in Hfront. injection Hfront as _ ->. by exists front.
Qed.

(** X14: a provider URL written without a scheme is given https.  For a
    host and path segments as before, the first being neither https: nor
    http:, the request on /type/seg1/.../segn is forwarded to
    https://seg1/.../segn. *)
Theorem X14_route_url_without_scheme (type host apiKey : string)
    (segments : list string) (headers : gmap string string) :
  segment type = true →
  Forall (fun s => segment s = true) (host :: segments) →
  host ≠ "https:" → host ≠ "http:" →
  ¬ (∃ front, host :: segments = front ++ ["v1"; "messages"]) →
  supported type = true →
  resolveKey type headers = Some apiKey → truthy apiKey = true →
  routed ("/" +:+ type +:+ "/" +:+ join "/" (host :: segments)) headers
  = Forward type ("https://" +:+ join "/" (host :: segments)) apiKey.
Proof.
  intros Htype Hsegments Hhttps Hhttp Hsuffix Hsupported Hkey Htruthy.
  assert (pathPartsOf ("/" +:+ type +:+ "/" +:+ join "/" (host :: segments))
          = type :: host :: segments) as Hparts.
  { rewrite pathPartsOf_slash, pathPartsOf_app.
    by rewrite (pathPartsOf_segment _ Htype), (pathPartsOf_join _ Hsegments). }
  rewrite (route_parts _ _ _ _ _ Hparts), Hsupported, Hkey, Htruthy. simpl.
  f_equal. unfold resolveBaseUrl. rewrite (stripMessagesSuffix_id _ Hsuffix).
  unfold reconstructUrl.
  destruct (String.eqb_spec host "https:"); [done |].
  by destruct (String.eqb_spec host "http:").
Qed.

(** X15: one trailing /v1/messages is removed, and only one.  For every
    path with at least one part, the base URL of the path followed by
    /v1/messages is the URL reconstructed from the parts of the path
    itself after the type, the path's own final v1, messages included when
    it has them. *)
Theorem X15_messages_suffix_removed_once (pathname : string) :
  pathPartsOf pathname ≠ [] →
  pathPartsOf (pathname +:+ "/v1/messages")
    = pathPartsOf pathname ++ ["v1"; "messages"]
  ∧ resolveBaseUrl (drop 1 (pathPartsOf (pathname +:+ "/v1/messages")))
    = reconstructUrl (drop 1 (pathPartsOf pathname)).
Proof.
  intros Hne.
  assert (pathPartsOf (pathname +:+ "/v1/messages")
          = pathPartsOf pathname ++ ["v1"; "messages"]) as Hparts.
  { change "/v1/messages" with ("/" +:+ "v1" +:+ "/" +:+ "messages").
    rewrite pathPartsOf_app. reflexivity. }
  split; [exact Hparts |]. rewrite Hparts.
  destruct (pathPartsOf pathname) as [|type parts]; [done |].
  change (drop 1 ((type :: parts) ++ ["v1"; "messages"]))
    with (parts ++ ["v1"; "messages"]).
  change (drop 1 (type :: parts)) with parts.
  unfold resolveBaseUrl. by rewrite stripMessagesSuffix_app.
Qed.

(** X16: a path with fewer than two parts is refused with status 400
    before the provider table, the headers or the environment are looked
    at: the empty path, and a single segment with or without slashes
    around it. *)
Theorem X16_route_short_path (s : string) (headers : gmap string string) :
  sepFree "/"%char s = true →
  let refused :=
    Reject 400 "Invalid path format. Expected: /{type}/{provider_url}" in
  routed s headers = refused
  ∧ routed ("/" +:+ s) headers = refused
  ∧ routed ("/" +:+ s +:+ "/") headers = refused
  ∧ routed ("//" +:+ s +:+ "//") headers = refused.
Proof.
  intros Hfree refused.
  assert (length (pathPartsOf s) < 2)%nat as Hs.
  { unfold pathPartsOf. rewrite (split_on_sepFree _ _ Hfree). simpl.
    destruct (truthy s); simpl; lia. }
  assert (pathPartsOf EmptyString = []) as Hempty by reflexivity.
  assert (∀ p, (length (pathPartsOf p) < 2)%nat → routed p headers = refused)
    as Hshort.
  { intros p Hp. unfold route.
    by rewrite (proj2 (Nat.ltb_lt _ _) Hp). }
  split_and!; apply Hshort.
  - exact Hs.
  - by rewrite pathPartsOf_slash.
  - rewrite pathPartsOf_slash.
    change (s +:+ "/") with (s +:+ "/" +:+ EmptyString).
    by rewrite pathPartsOf_app, Hempty, app_nil_r.
  - change ("//" +:+ s +:+ "//") with ("/" +:+ "/" +:+ s +:+ "//").
    rewrite !pathPartsOf_slash.
    change (s +:+ "//") with (s +:+ "/" +:+ "/" +:+ EmptyString).
    by rewrite pathPartsOf_app, pathPartsOf_slash, Hempty, app_nil_r.
Qed.

(** X17: what the handler never does.  It never answers Missing type or
    provider_url in path: once the path has two parts the type is not
    empty and the base URL, which always begins with https:// or http://,
    is not empty either.  When it forwards, the type is supported and is
    the first part of the path, and the key is not empty. *)
Theorem X17_route_invariants (pathname : string)
    (headers : gmap string string) :
  routed pathname headers ≠ Reject 400 "Missing type or provider_url in path"
  ∧ (∀ type baseUrl apiKey,
       routed pathname headers = Forward type baseUrl apiKey →
       pathPartsOf pathname !! 0 = Some type
       ∧ supported type = true
       ∧ truthy apiKey = true
       ∧ baseUrl = resolveBaseUrl (drop 1 (pathPartsOf pathname))
       ∧ (String.prefix "https://" baseUrl = true
          ∨ String.prefix "http://" baseUrl = true)).
Proof.
  destruct (pathPartsOf pathname) as [|type [|first others]] eqn:Hparts.
  - unfold route. rewrite Hparts. simpl. split; [done | done].
  - unfold route. rewrite Hparts. simpl. split; [done | done].
  - rewrite (route_parts _ _ _ _ _ Hparts).
    destruct (supported type) eqn:Hsupported; simpl.
    + destruct (resolveKey type headers) as [apiKey|] eqn:Hkey.
      * destruct (truthy apiKey) eqn:Htruthy.
        -- split; [done |]. intros t b k [= <- <- <-].
           split_and!; try done. apply reconstructUrl_scheme.
        -- split; done.
      * split; done.
    + split; [| done]. intros H. inversion H.
Qed.

(** X18: the three sources of the key, in their order.  A non-empty
    x-api-key header is the key, whatever else is there; without it, the
    token of an authorization header Bearer token is the key when the
    token is not empty; without both, the key is the environment variable
    named by the upper-cased type followed by _API_KEY.  An authorization
    header that does not begin with Bearer and a space is ignored. *)
Theorem X18_api_key_precedence (type : string) (headers : gmap string string) :
  (∀ key,
      headers !! "x-api-key" = Some key → truthy key = true →
      resolveKey type headers = Some key)
  ∧ (∀ token,
      truthyOption (headers !! "x-api-key") = false →
      headers !! "authorization" = Some ("Bearer " +:+ token) →
      truthy token = true →
      resolveKey type headers = Some token)
  ∧ (truthyOption (headers !! "x-api-key") = false →
     (∀ authHeader,
         headers !! "authorization" = Some authHeader →
         startsWith authHeader "Bearer " = false ∨ authHeader = "Bearer ") →
     resolveKey type headers = env !! (toUpperCase type +:+ "_API_KEY")).
Proof.
  unfold resolveApiKey. split_and!.
  - intros key Hkey Htruthy. rewrite Hkey.
    cbn [truthyOption]. rewrite Htruthy. cbn [negb].
    cbn [truthyOption]. by rewrite Htruthy.
  - intros token Hx Hauth Htoken. rewrite Hx, Hauth. cbn [negb].
    destruct (bearer_token token) as [-> ->].
    assert (truthy ("Bearer " +:+ token) = true) as -> by reflexivity.
    cbn [andb truthyOption]. by rewrite Htoken.
  - intros Hx Hauth. rewrite Hx. cbn [negb].
    destruct (headers !! "authorization") as [authHeader|] eqn:Ha.
    + destruct (Hauth authHeader eq_refl) as [Hstart | ->].
      * rewrite Hstart, andb_false_r. by rewrite Hx.
      * reflexivity.
    + by rewrite Hx.
Qed.

(** X19: the order of the refusals.  With two parts or more in the path,
    an unsupported type is refused with status 400 and its name in the
    message, key or no key; status 401 is answered exactly when the type
    is supported and none of the three sources gives a non-empty key. *)
Theorem X19_route_refusals (pathname : string) (headers : gmap string string)
    (type first : string) (others : list string) :
  pathPartsOf pathname = type :: first :: others →
  (supported type = false →
   routed pathname headers
   = Reject 400 ("Provider " +:+ type +:+ " not supported"))
  ∧ ((∃ error, routed pathname headers = Reject 401 error)
     ↔ supported type = true
       ∧ truthyOption (resolveKey type headers) = false).
Proof.
  intros Hparts. rewrite (route_parts _ _ _ _ _ Hparts). split.
  - by intros ->.
  - destruct (supported type); simpl.
    + destruct (resolveKey type headers) as [apiKey|]; simpl.
      * destruct (truthy apiKey); split.
        -- by intros [error H].
        -- by intros [_ H].
        -- done.
        -- intros _. by eexists.
      * split; [done |]. intros _. by eexists.
    + split; [by intros [error H] | by intros [H _]].
Qed.

End RouterProperties.

(** * Further instances *)



(** X12 at a fragment that continues the arguments of a call: no part, no
    exception, the cursor as it was. *)
Lemma X12_stream_incomplete_calls_dropped_witness :
  convertStreamLine Reader.parse Decode.parseStreamResponse
    recordTextPart recordToolUsePart
    (json "{`choices`:[{`delta`:{`tool_calls`:[{`function`:{`arguments`:`{\`ci`}}]}}]}")
    3 5
  = Ok (Some (mkStreamResult [] 3 5)).
Proof.
  match goal with
  | |- convertStreamLine _ _ _ _ ?frame _ _ = _ =>
      match eval vm_compute in (Decode.parseStreamResponse frame) with
      | Ok ?d =>
          match eval vm_compute in (OpenAIStreamResponse.choices d) with
          | Some (?c :: ?r) =>
              assert (Decode.parseStreamResponse frame = Ok d) as Hparse
                by (vm_compute; reflexivity);
              pose proof (X12_stream_incomplete_calls_dropped Reader.parse
                            Decode.parseStreamResponse frame 3 5 d c r
                            Hparse eq_refl) as H
          end
      end
  end.
  eapply eq_trans; [apply H |]; [| vm_compute; reflexivity].
  intros toolCall tool_calls [= <-] Hin.
  apply list_elem_of_In in Hin. simpl in Hin. destruct Hin as [<- | []].
  left. reflexivity.
Defined.

Lemma not_messages_suffix (segments : list string) :
  last segments ≠ Some "messages" →
  ¬ (∃ front, segments = front ++ ["v1"; "messages"]).
Proof.
  intros Hlast (front & ->). apply Hlast.
  change (front ++ ["v1"; "messages"]) with (front ++ ["v1"] ++ ["messages"]).
  by rewrite app_assoc, last_snoc.
Qed.

(** X13 at the OpenAI endpoint, with the key in the x-api-key header. *)
Lemma X13_route_url_with_scheme_witness :
  route toUpperCaseAscii knownProvider sampleEnv
    "/openai/https://api.openai.com/v1/chat/completions"
    {[ "x-api-key" := "sk-1" ]}
  = Forward "openai" "https://api.openai.com/v1/chat/completions" "sk-1".
Proof.
  refine (proj2 (X13_route_url_with_scheme toUpperCaseAscii knownProvider
                   sampleEnv "openai" "https:" "sk-1"
                   ["api.openai.com"; "v1"; "chat"; "completions"]
                   {[ "x-api-key" := "sk-1" ]} _ _ _ _ _ _ _)).
  - reflexivity.
  - by left.
  - repeat constructor.
  - apply not_messages_suffix. discriminate.
  - reflexivity.
  - vm_compute. reflexivity.
  - reflexivity.
Defined.

(** X14 at the same endpoint written without its scheme, with the key as a
    bearer token. *)
Lemma X14_route_url_without_scheme_witness :
  route toUpperCaseAscii knownProvider sampleEnv
    "/openai/api.openai.com/v1/chat/completions"
    {[ "authorization" := "Bearer sk-2" ]}
  = Forward "openai" "https://api.openai.com/v1/chat/completions" "sk-2".
Proof.
  refine (X14_route_url_without_scheme toUpperCaseAscii knownProvider
            sampleEnv "openai" "api.openai.com" "sk-2"
            ["v1"; "chat"; "completions"]
            {[ "authorization" := "Bearer sk-2" ]} _ _ _ _ _ _ _ _).
  - reflexivity.
  - repeat constructor.
  - discriminate.
  - discriminate.
  - apply not_messages_suffix. discriminate.
  - reflexivity.
  - vm_compute. reflexivity.
  - reflexivity.
Defined.

(** X15 at the path a Claude client makes of the endpoint, and at a path
    that holds the type only: the base URL is then https:// alone. *)
Lemma X15_messages_suffix_removed_once_witness :
  resolveBaseUrl
    (drop 1 (pathPartsOf
               "/openai/https://api.openai.com/v1/chat/completions/v1/messages"))
  = "https://api.openai.com/v1/chat/completions"
  ∧ resolveBaseUrl (drop 1 (pathPartsOf "/openai/v1/messages")) = "https://".
Proof.
  split.
  - refine (eq_trans
              (proj2 (X15_messages_suffix_removed_once
                        "/openai/https://api.openai.com/v1/chat/completions" _))
              _).
    + vm_compute. discriminate.
    + vm_compute. reflexivity.
  - refine (eq_trans (proj2 (X15_messages_suffix_removed_once "/openai" _)) _).
    + vm_compute. discriminate.
    + vm_compute. reflexivity.
Defined.

(** X16 at the path /openai. *)
Lemma X16_route_short_path_witness :
  route toUpperCaseAscii knownProvider sampleEnv "/openai"
    {[ "x-api-key" := "sk-1" ]}
  = Reject 400 "Invalid path format. Expected: /{type}/{provider_url}".
Proof.
  refine (proj1 (proj2 (X16_route_short_path toUpperCaseAscii knownProvider
                          sampleEnv "openai" {[ "x-api-key" := "sk-1" ]} _))).
  reflexivity.
Defined.

(** X19 at an unknown type with a key, and at a known type without one. *)
Lemma X19_route_refusals_witness :
  route toUpperCaseAscii knownProvider sampleEnv "/claude/api.anthropic.com"
    {[ "x-api-key" := "sk-1" ]}
  = Reject 400 "Provider claude not supported"
  ∧ ∃ error,
      route toUpperCaseAscii knownProvider sampleEnv
        "/gemini/generativelanguage.googleapis.com" ∅
      = Reject 401 error.
Proof.
  split.
  - refine (proj1 (X19_route_refusals toUpperCaseAscii knownProvider sampleEnv
                     "/claude/api.anthropic.com" {[ "x-api-key" := "sk-1" ]}
                     "claude" "api.anthropic.com" [] _) _);
      vm_compute; reflexivity.
  - refine (proj2 (proj2 (X19_route_refusals toUpperCaseAscii knownProvider
                            sampleEnv
                            "/gemini/generativelanguage.googleapis.com" ∅
                            "gemini" "generativelanguage.googleapis.com" [] _))
              _).
    + vm_compute. reflexivity.
    + split; vm_compute; reflexivity.
Defined.
